(** * moda-trading: orchestration budget, signal generation and the position ledger

    A shallow embedding of the three core components of the repository
    - data-ingestion/orchestrator/main.py  (OrchestrationEngine),
    - strategy-engine/main.py              (RiskManager, StrategyEngine),
    - portfolio-service/main.py            (PortfolioManager),
    together with the parts of the Python runtime they rely on
    (decimal.Decimal under the default context, binary64 floats, dicts)
    and the document store behind shared/firestore_client.py. *)

From Stdlib Require Import ZArith QArith Lia List Bool String Ascii Permutation.
From stdpp Require Import base option list gmap strings fin_maps sorting pretty.

Local Open Scope Z_scope.

(** ** Decimal digits of a natural number *)

Fixpoint ndigits_fuel (fuel : nat) (n : Z) : Z :=
  match fuel with
  | O => 1
  | S f => if n <? 10 then 1 else 1 + ndigits_fuel f (n / 10)
  end.

(** [len(str(n))] for [n >= 0]. *)
Definition ndigits (n : Z) : Z := ndigits_fuel (Z.to_nat (Z.log2 n) + 1) n.

(** Removes at most [fuel] trailing zero digits of [c], counting them in [e]. *)
Fixpoint strip_zeros (fuel : nat) (c e : Z) : Z * Z :=
  match fuel with
  | O => (c, e)
  | S f => if (c mod 10 =? 0) && negb (c =? 0)
           then strip_zeros f (c / 10) (e + 1) else (c, e)
  end.

(** ** decimal.Decimal, finite values, default context
    (prec=28, rounding=ROUND_HALF_EVEN).  The exponent limits
    Emax=999999 / Emin=-999999 of the context are not modelled. *)
Module Decimal.

Record t := Mk { neg : bool; coef : N; exp : Z }.

Definition prec : Z := 28.

Definition mag (d : t) : Z := Z.of_N (coef d).
Definition signed (d : t) : Z := if neg d then - mag d else mag d.

(** The rational number a Decimal denotes. *)
Definition value (d : t) : Q :=
  if 0 <=? exp d then inject_Z (signed d * 10 ^ exp d)
  else Qmake (signed d) (Z.to_pos (10 ^ (- exp d))).

(** [Decimal._fix]: round the coefficient [c >= 0] to [prec] digits. *)
Definition fix_ (s : bool) (c e : Z) : t :=
  let n := ndigits c in
  if n <=? prec then Mk s (Z.to_N c) e
  else
    let k := n - prec in
    let q := c / 10 ^ k in
    let r := c mod 10 ^ k in
    let half := 5 * 10 ^ (k - 1) in
    let q' := if (half <? r) || ((r =? half) && Z.odd q) then q + 1 else q in
    if q' =? 10 ^ prec then Mk s (Z.to_N (10 ^ (prec - 1))) (e + k + 1)
    else Mk s (Z.to_N q') (e + k).

(** [Decimal(n)] for an int [n]: exact. *)
Definition of_int (n : Z) : t := Mk (n <? 0) (Z.to_N (Z.abs n)) 0.

Definition is_zero (d : t) : bool := (coef d =? 0)%N.

Definition negate (d : t) : t := Mk (negb (neg d)) (coef d) (exp d).

(** [Decimal.__mul__] *)
Definition mul (x y : t) : t :=
  fix_ (xorb (neg x) (neg y)) (mag x * mag y) (exp x + exp y).

(** [Decimal.__add__]: the exact sum at the smaller exponent, then [_fix]. *)
Definition add (x y : t) : t :=
  let e := Z.min (exp x) (exp y) in
  let s := signed x * 10 ^ (exp x - e) + signed y * 10 ^ (exp y - e) in
  if s =? 0 then Mk (neg x && neg y) 0%N e
  else fix_ (s <? 0) (Z.abs s) e.

(** [Decimal.__sub__] *)
Definition sub (x y : t) : t := add x (negate y).

(** [Decimal.__truediv__]; [None] is DivisionByZero / InvalidOperation. *)
Definition div (x y : t) : option t :=
  if is_zero y then None
  else
    let sign := xorb (neg x) (neg y) in
    if is_zero x then Some (Mk sign 0%N (exp x - exp y))
    else
      let shift := ndigits (mag y) - ndigits (mag x) + prec + 1 in
      let e := exp x - exp y - shift in
      let '(q, r) :=
        if 0 <=? shift then Z.div_eucl (mag x * 10 ^ shift) (mag y)
        else Z.div_eucl (mag x) (mag y * 10 ^ (- shift)) in
      if negb (r =? 0) then
        Some (fix_ sign (if q mod 5 =? 0 then q + 1 else q) e)
      else
        let ideal := exp x - exp y in
        let '(q', e') := strip_zeros (Z.to_nat (ideal - e)) q e in
        Some (fix_ sign q' e').

(** [int(d)]: truncation towards zero. *)
Definition to_int (d : t) : Z :=
  if 0 <=? exp d then signed d * 10 ^ exp d
  else Z.quot (signed d) (10 ^ (- exp d)).

(** Numeric comparison, as [Decimal.__lt__] and friends perform it. *)
Definition cmp (x y : t) : comparison :=
  let e := Z.min (exp x) (exp y) in
  Z.compare (signed x * 10 ^ (exp x - e)) (signed y * 10 ^ (exp y - e)).

Definition ltb (x y : t) : bool := match cmp x y with Lt => true | _ => false end.
Definition eqb (x y : t) : bool := match cmp x y with Eq => true | _ => false end.

End Decimal.

(** ** Python floats: finite IEEE-754 binary64 numbers, [man * 2 ^ exp].
    Canonical form: [man < 2^53], [-1074 <= exp <= 971], and
    [2^52 <= man] unless [exp = -1074].  Infinities and NaN are outside
    the model: an operation whose result is not finite is [None], and
    the callers below treat it like a raised exception. *)
Module Float.

Record t := Mk { neg : bool; man : N; exp : Z }.

Definition emin : Z := -1074.
Definition emax : Z := 971.

Definition mag (f : t) : Z := Z.of_N (man f).
Definition signed (f : t) : Z := if neg f then - mag f else mag f.

Definition value (f : t) : Q :=
  if 0 <=? exp f then inject_Z (signed f * 2 ^ exp f)
  else Qmake (signed f) (Z.to_pos (2 ^ (- exp f))).

(** floor (log2 (n / d)) for positive [n], [d]. *)
Definition floor_log2 (n d : Z) : Z :=
  let l := Z.log2 n - Z.log2 d in
  if d * 2 ^ Z.max l 0 <=? n * 2 ^ Z.max (- l) 0 then l else l - 1.

(** Round the non-negative rational [n / d] to the nearest binary64
    number, ties to even; [None] when the result is not finite. *)
Definition round (s : bool) (n d : Z) : option t :=
  if n =? 0 then Some (Mk s 0%N emin)
  else
    let e := Z.max (floor_log2 n d - 52) emin in
    let num := n * 2 ^ Z.max (- e) 0 in
    let den := d * 2 ^ Z.max e 0 in
    let q := num / den in
    let r := num mod den in
    let q' := if (den <? 2 * r) || ((2 * r =? den) && Z.odd q) then q + 1 else q in
    let '(m, e') := if q' =? 2 ^ 53 then (2 ^ 52, e + 1) else (q', e) in
    if emax <? e' then None else Some (Mk s (Z.to_N m) e').

(** A float literal: the binary64 number nearest to [n / d]. *)
Definition lit (n d : Z) : t := default (Mk false 0%N emin) (round false n d).

(** Numerator and denominator of [|f|]. *)
Definition num (f : t) : Z := mag f * 2 ^ Z.max (exp f) 0.
Definition den (f : t) : Z := 2 ^ Z.max (- exp f) 0.

(** [float(n)] for an int [n]. *)
Definition of_int (n : Z) : option t := round (n <? 0) (Z.abs n) 1.

(** [float(d)] for a Decimal [d]: correctly rounded. *)
Definition of_decimal (d : Decimal.t) : option t :=
  round (Decimal.neg d)
        (Decimal.mag d * 10 ^ Z.max (Decimal.exp d) 0)
        (10 ^ Z.max (- Decimal.exp d) 0).

(** [x * y] *)
Definition mul (x y : t) : option t :=
  round (xorb (neg x) (neg y)) (num x * num y) (den x * den y).

(** [x / y]; [None] is ZeroDivisionError (or a non-finite result). *)
Definition div (x y : t) : option t :=
  if (man y =? 0)%N then None
  else round (xorb (neg x) (neg y)) (num x * den y) (den x * num y).

Definition cmp (x y : t) : comparison :=
  Z.compare (signed x * 2 ^ Z.max (exp x) 0 * den y)
            (signed y * 2 ^ Z.max (exp y) 0 * den x).

Definition ltb (x y : t) : bool := match cmp x y with Lt => true | _ => false end.

(** [min(x, y)] on two floats: the first argument unless the second is
    strictly smaller. *)
Definition min (x y : t) : t := if ltb y x then y else x.

(** floor (log10 (n / d)) for positive [n], [d]. *)
Definition floor_log10 (n d : Z) : Z :=
  let g := ndigits n - ndigits d in
  if d * 10 ^ Z.max g 0 <=? n * 10 ^ Z.max (- g) 0 then g else g - 1.

(** Does the decimal [c * 10^(-s)] read back as [f]? *)
Definition reads_back (f : t) (c s : Z) : bool :=
  match round (neg f) (c * 10 ^ Z.max (- s) 0) (10 ^ Z.max s 0) with
  | Some g => (man g =? man f)%N && (exp g =? exp f)
  | None => false
  end.

(** The shortest decimal digit string that reads back as [f] (what
    [repr] prints), searched from 1 digit up to [fuel] more digits:
    returns [(digits, exponent)]. *)
Fixpoint shortest_from (fuel : nat) (f : t) (p10 k : Z) : Z * Z :=
  let s := k - 1 - p10 in
  let nn := num f * 10 ^ Z.max s 0 in
  let dd := den f * 10 ^ Z.max (- s) 0 in
  let lo := nn / dd in
  let r := nn mod dd in
  let hi := lo + 1 in
  let lo_near := (2 * r <? dd) || ((2 * r =? dd) && Z.even lo) in
  match fuel with
  | O => (if lo_near then lo else hi, - s)
  | S fuel' =>
      let ok_lo := reads_back f lo s in
      let ok_hi := reads_back f hi s in
      if ok_lo && (lo_near || negb ok_hi) then (lo, - s)
      else if ok_hi then (hi, - s)
      else shortest_from fuel' f p10 (k + 1)
  end.

Definition shortest (f : t) : Z * Z :=
  let '(c, e) := shortest_from 16 f (floor_log10 (num f) (den f)) 1 in
  strip_zeros 20 c e.

(** [Decimal(str(f))]: parse what [repr] prints.  Fixed notation is
    used when the decimal point position lies in (-4, 16], and then an
    integral value is printed with a trailing ".0". *)
Definition to_decimal_via_str (f : t) : Decimal.t :=
  if (man f =? 0)%N then Decimal.Mk (neg f) 0%N (-1)
  else
    let '(c, e) := shortest f in
    let decpt := ndigits c + e in
    if (decpt <=? -4) || (16 <? decpt) then Decimal.Mk (neg f) (Z.to_N c) e
    else if 0 <=? e then Decimal.Mk (neg f) (Z.to_N (c * 10 ^ (e + 1))) (-1)
    else Decimal.Mk (neg f) (Z.to_N c) e.

End Float.

(** ** Python values held in documents *)

(** [datetime] values are microseconds on the naive time line. *)
Inductive pyval :=
| VNone
| VInt (z : Z)
| VFloat (f : Float.t)
| VDec (d : Decimal.t)
| VStr (s : string)
| VTime (t : Z).

#[global] Instance decimal_eq_dec : EqDecision Decimal.t.
Proof. solve_decision. Defined.

#[global] Instance float_eq_dec : EqDecision Float.t.
Proof. solve_decision. Defined.

#[global] Instance pyval_eq_dec : EqDecision pyval.
Proof. solve_decision. Defined.

Abbreviation doc := (gmap string pyval).
Abbreviation collection := (gmap string (gmap string pyval)).
Abbreviation store := (gmap string (gmap string (gmap string pyval))).

(** A raised exception is [None]; [let? x := e in k] runs [k] unless [e]
    raised. *)
Notation "'let?' x := e 'in' k" :=
  (match e with Some x => k | None => None end)
  (at level 10, x pattern, e at level 100, k at level 200, only parsing).

Module Py.

(** Truthiness, as [if x:] and [not x] test it. *)
Definition truthy (v : pyval) : bool :=
  match v with
  | VNone => false
  | VInt z => negb (z =? 0)
  | VFloat f => negb (Float.man f =? 0)%N
  | VDec d => negb (Decimal.is_zero d)
  | VStr s => negb (String.eqb s "")
  | VTime _ => true
  end.

(** The exact rational value of a number. *)
Definition num_value (v : pyval) : option Q :=
  match v with
  | VInt z => Some (inject_Z z)
  | VFloat f => Some (Float.value f)
  | VDec d => Some (Decimal.value d)
  | _ => None
  end.

(** [Decimal(str(v))].  [None] is decimal.InvalidOperation.  Text is
    not parsed here: Python reads numeric text such as '155.25', the
    model answers [None] for every [VStr], and the statements that
    depend on it ask for fields that hold numbers. *)
Definition decimal_of_str (v : pyval) : option Decimal.t :=
  match v with
  | VInt z => Some (Decimal.of_int z)
  | VFloat f => Some (Float.to_decimal_via_str f)
  | VDec d => Some d
  | _ => None
  end.

(** Numeric comparison of ints, floats and Decimals (exact in Python
    for every pair of these types); [None] is TypeError. *)
Definition num_cmp (a b : pyval) : option comparison :=
  match num_value a, num_value b with
  | Some x, Some y => Some (Qcompare x y)
  | _, _ => None
  end.

Definition lt (a b : pyval) : option bool :=
  let? c := num_cmp a b in Some (match c with Lt => true | _ => false end).

(** [min(a, b)] *)
Definition min (a b : pyval) : option pyval :=
  let? l := lt b a in Some (if l then b else a).

(** [a / b] (true division).  int/int is the correctly rounded
    quotient; a float operand converts the other int operand first;
    Decimal and float do not mix. *)
Definition truediv (a b : pyval) : option pyval :=
  match a, b with
  | VInt x, VInt y =>
      if y =? 0 then None
      else VFloat <$> Float.round (xorb (x <? 0) (y <? 0)) (Z.abs x) (Z.abs y)
  | VFloat x, VInt y => let? fy := Float.of_int y in VFloat <$> Float.div x fy
  | VInt x, VFloat y => let? fx := Float.of_int x in VFloat <$> Float.div fx y
  | VFloat x, VFloat y => VFloat <$> Float.div x y
  | VDec x, VInt y => VDec <$> Decimal.div x (Decimal.of_int y)
  | VInt x, VDec y => VDec <$> Decimal.div (Decimal.of_int x) y
  | VDec x, VDec y => VDec <$> Decimal.div x y
  | _, _ => None
  end.

(** [a * b] on numbers. *)
Definition mul (a b : pyval) : option pyval :=
  match a, b with
  | VInt x, VInt y => Some (VInt (x * y))
  | VFloat x, VInt y => let? fy := Float.of_int y in VFloat <$> Float.mul x fy
  | VInt x, VFloat y => let? fx := Float.of_int x in VFloat <$> Float.mul fx y
  | VFloat x, VFloat y => VFloat <$> Float.mul x y
  | VDec x, VInt y => Some (VDec (Decimal.mul x (Decimal.of_int y)))
  | VInt x, VDec y => Some (VDec (Decimal.mul (Decimal.of_int x) y))
  | VDec x, VDec y => Some (VDec (Decimal.mul x y))
  | _, _ => None
  end.

(** [float(v)] *)
Definition to_float (v : pyval) : option Float.t :=
  match v with
  | VInt z => Float.of_int z
  | VFloat f => Some f
  | VDec d => Float.of_decimal d
  | _ => None
  end.

Fixpoint digits_fuel (fuel : nat) (n : Z) (acc : string) : string :=
  let acc' := String (ascii_of_nat (48 + Z.to_nat (n mod 10))) acc in
  match fuel with
  | O => acc'
  | S f => if n <? 10 then acc' else digits_fuel f (n / 10) acc'
  end.

(** [str(n)] for an int [n >= 0]. *)
Definition str_nat (n : Z) : string :=
  digits_fuel (Z.to_nat (Z.log2 n) + 1) n "".

(** [str(n)] zero-padded on the left to two digits ("%02d"). *)
Definition pad2 (n : Z) : string :=
  if n <? 10 then String "0" (str_nat n) else str_nat n.

(** [f"{v:.1f}"]: one digit after the point, the exact value rounded
    half-even. *)
Definition format_1f (v : pyval) : option string :=
  let? q := num_value v in
  let n := Z.abs (Qnum q) * 10 in
  let d := Z.pos (Qden q) in
  let t := n / d in
  let r := n mod d in
  let t' := if (d <? 2 * r) || ((2 * r =? d) && Z.odd t) then t + 1 else t in
  let neg := match v with
             | VFloat f => Float.neg f
             | VDec x => Decimal.neg x
             | _ => Qnum q <? 0
             end in
  Some ((if neg then "-" else "") +:+ str_nat (t' / 10) +:+ "." +:+ str_nat (t' mod 10))%string.

End Py.

(** ** datetime *)
Module Datetime.

Definition day_us : Z := 86400 * 1000000.

(** [timedelta(hours=h)] *)
Definition hours (h : Z) : Z := h * 3600 * 1000000.

(** [(a - b).days]: timedelta normalises with a floor division. *)
Definition days_between (a b : Z) : Z := (a - b) / day_us.

(** Year, month and day of a day count from 1970-01-01 (proleptic
    Gregorian calendar). *)
Definition civil (days : Z) : Z * Z * Z :=
  let z := days + 719468 in
  let era := z / 146097 in
  let doe := z - era * 146097 in
  let yoe := (doe - doe / 1460 + doe / 36524 - doe / 146096) / 365 in
  let doy := doe - (365 * yoe + yoe / 4 - yoe / 100) in
  let mp := (5 * doy + 2) / 153 in
  let d := doy - (153 * mp + 2) / 5 + 1 in
  let m := if mp <? 10 then mp + 3 else mp - 9 in
  let y := yoe + era * 400 + (if m <=? 2 then 1 else 0) in
  (y, m, d).

(** [t.strftime(fmt)] for the two formats the services use, which
    differ in their separators only:
    '%Y%m%d_%H%M%S' ([sep_date = ""], [sep_time = ""]) and
    '%Y-%m-%d_%H-%M-%S' (both "-"). *)
Definition strftime (sep_date sep_time : string) (t : Z) : string :=
  let '(y, m, d) := civil (t / day_us) in
  let s := (t mod day_us) / 1000000 in
  (Py.str_nat y +:+ sep_date +:+ Py.pad2 m +:+ sep_date +:+ Py.pad2 d +:+ "_"
     +:+ Py.pad2 (s / 3600) +:+ sep_time +:+ Py.pad2 (s / 60 mod 60)
     +:+ sep_time +:+ Py.pad2 (s mod 60))%string.

End Datetime.

(** The wall clock as one operation reads it: [datetime.now()] and
    [datetime.utcnow()]. *)
Record clock := Clock { now : Z; utcnow : Z }.

(** ** The document store behind shared/firestore_client.py

    A store maps collection names to collections, a collection maps
    document ids to documents, a document is a dict of fields.  Values
    are kept as the services hand them over, as far as the store takes
    them; the wrapper's methods never raise (FirestoreClient catches
    and logs, and answers False or an empty result). *)
Module Firestore.

Inductive op := OpEq | OpGe | OpGt.

Abbreviation field_filter := (string * op * pyval)%type.

(** Values of different kinds never compare equal; kinds are ordered
    null < number < timestamp < text. *)
Definition rank (v : pyval) : Z :=
  match v with
  | VNone => 0
  | VInt _ | VFloat _ | VDec _ => 1
  | VTime _ => 2
  | VStr _ => 3
  end.

Definition val_compare (a b : pyval) : comparison :=
  match Z.compare (rank a) (rank b) with
  | Eq =>
      match a, b with
      | VTime x, VTime y => Z.compare x y
      | VStr x, VStr y => String.compare x y
      | _, _ => match Py.num_cmp a b with Some c => c | None => Eq end
      end
  | c => c
  end.

(** [FieldFilter(field, op, value)] on one document. *)
Definition matches (f : field_filter) (d : doc) : bool :=
  let '(field, o, v) := f in
  match d !! field with
  | None => false
  | Some x =>
      (rank x =? rank v) &&
      match o, val_compare x v with
      | OpEq, Eq => true
      | OpGe, (Eq | Gt) => true
      | OpGt, Gt => true
      | _, _ => false
      end
  end.

Abbreviation entry := (string * doc)%type.

(** Result order: the [order_by] field when given, then the document id. *)
Definition entry_leb (order_by : option string) (a b : entry) : bool :=
  let by_id := match String.compare a.1 b.1 with Gt => false | _ => true end in
  match order_by with
  | None => by_id
  | Some f =>
      match val_compare (default VNone (a.2 !! f)) (default VNone (b.2 !! f)) with
      | Lt => true
      | Gt => false
      | Eq => by_id
      end
  end.

Fixpoint insert_sorted (leb : entry → entry → bool) (x : entry) (l : list entry)
  : list entry :=
  match l with
  | [] => [x]
  | y :: l' => if leb x y then x :: l else y :: insert_sorted leb x l'
  end.

Definition sort (leb : entry → entry → bool) (l : list entry) : list entry :=
  foldr (insert_sorted leb) [] l.

(** A query ordered by a field returns only documents that have it. *)
Definition selected (filters : list field_filter) (order_by : option string)
           (e : entry) : bool :=
  forallb (λ f, matches f e.2) filters &&
  match order_by with
  | None => true
  | Some f => match e.2 !! f with Some _ => true | None => false end
  end.

(** [data = doc.to_dict(); data['id'] = doc.id] *)
Definition with_id (e : entry) : doc := <["id" := VStr e.1]> e.2.

(** What a document can hold.  Firestore has no value type for
    [decimal.Decimal]: the client raises (TypeError, "Cannot convert to
    a Firestore Value") on a document that holds one, whatever the
    field.  Ints are taken to fit the store's 64 bits. *)
Definition storable (v : pyval) : bool :=
  match v with VDec _ => false | _ => true end.

Definition encodable (data : doc) : bool :=
  bool_decide (map_Forall (λ _ v, storable v = true) data).

(** The documents of a collection.  A stored document holds storable
    values only: what a state of the model holds besides is not in the
    store, and is not read. *)
Definition stored_part (d : doc) : doc := filter (λ kv, storable kv.2 = true) d.

Definition coll (st : store) (c : string) : collection :=
  stored_part <$> default ∅ (st !! c).

(** [query_documents].  [order_by] is [None] or the name of a field:
    the wrapper's [if order_by:] takes the empty text for no ordering,
    which is [None] here, not an empty field name. *)
Definition query_documents (st : store) (c : string)
           (filters : list field_filter) (order_by : option string)
           (limit : option nat) : list doc :=
  let es := List.filter (selected filters order_by) (map_to_list (coll st c)) in
  let sorted := sort (entry_leb order_by) es in
  let limited := match limit with
                 | Some (S n) => take (S n) sorted
                 | _ => sorted
                 end in
  with_id <$> limited.

(** [doc_ref.set(data, merge=True)] inside the wrapper's try: when the
    client raises on the data, the wrapper logs, returns False and
    nothing is written (no caller looks at the result). *)
Definition upsert_document (st : store) (c id : string) (data : doc) : store :=
  if encodable data
  then <[c := <[id := data ∪ default ∅ (coll st c !! id)]> (coll st c)]> st
  else st.

(** [doc_ref.update(data)]: fails (and changes nothing) when the
    document does not exist, or when the data cannot be encoded. *)
Definition update_document (st : store) (c id : string) (data : doc) : store :=
  match coll st c !! id with
  | Some old =>
      if encodable data then <[c := <[id := data ∪ old]> (coll st c)]> st else st
  | None => st
  end.

(** [doc_ref.delete()] *)
Definition delete_document (st : store) (c id : string) : store :=
  <[c := delete id (coll st c)]> st.

End Firestore.

Import Firestore.

(** ** shared/models.py *)

Module RecommendationType.
Inductive t := BUY | HOLD | SELL.
Definition value (r : t) : string :=
  match r with BUY => "buy" | HOLD => "hold" | SELL => "sell" end.
(** [RecommendationType(v)]; [None] is ValueError. *)
Definition of_value (v : pyval) : option t :=
  match v with
  | VStr "buy" => Some BUY
  | VStr "hold" => Some HOLD
  | VStr "sell" => Some SELL
  | _ => None
  end.
End RecommendationType.

Module TransactionType.
Inductive t := BUY | SELL.
Definition value (r : t) : string :=
  match r with BUY => "buy" | SELL => "sell" end.
End TransactionType.

Module PositionStatus.
Inductive t := ACTIVE | CLOSED.
Definition value (r : t) : string :=
  match r with ACTIVE => "active" | CLOSED => "closed" end.
End PositionStatus.

Definition opt_dec (o : option Decimal.t) : pyval :=
  match o with Some d => VDec d | None => VNone end.

Definition opt_time (o : option Z) : pyval :=
  match o with Some t => VTime t | None => VNone end.

Module Transaction.
Record t := Mk {
  symbol : string;
  transaction_type : TransactionType.t;
  quantity : Z;
  price : Decimal.t;
  total_amount : Decimal.t;
  fees : Decimal.t;
  executed_at : Z;
  created_at : Z;
  updated_at : Z
}.
Definition dict (x : t) : doc :=
  list_to_map [
    ("created_at", VTime (created_at x));
    ("updated_at", VTime (updated_at x));
    ("symbol", VStr (symbol x));
    ("transaction_type", VStr (TransactionType.value (transaction_type x)));
    ("quantity", VInt (quantity x));
    ("price", VDec (price x));
    ("total_amount", VDec (total_amount x));
    ("fees", VDec (fees x));
    ("executed_at", VTime (executed_at x));
    ("order_id", VNone)
  ].
End Transaction.

Module Position.
Record t := Mk {
  symbol : string;
  quantity : Z;
  average_cost : Decimal.t;
  current_price : option Decimal.t;
  market_value : option Decimal.t;
  unrealized_pnl : option Decimal.t;
  status : PositionStatus.t;
  opened_at : Z;
  closed_at : option Z;
  created_at : Z;
  updated_at : Z
}.
Definition dict (x : t) : doc :=
  list_to_map [
    ("created_at", VTime (created_at x));
    ("updated_at", VTime (updated_at x));
    ("symbol", VStr (symbol x));
    ("quantity", VInt (quantity x));
    ("average_cost", VDec (average_cost x));
    ("current_price", opt_dec (current_price x));
    ("market_value", opt_dec (market_value x));
    ("unrealized_pnl", opt_dec (unrealized_pnl x));
    ("status", VStr (PositionStatus.value (status x)));
    ("opened_at", VTime (opened_at x));
    ("closed_at", opt_time (closed_at x))
  ].
End Position.

Module TradeSignal.
Record t := Mk {
  symbol : string;
  signal_type : RecommendationType.t;
  quantity : Z;
  price_limit : option Decimal.t;
  stop_loss : option Decimal.t;
  take_profit : option Decimal.t;
  confidence : Float.t;
  reasoning : string;
  expires_at : option Z;
  created_at : Z;
  updated_at : Z
}.
Definition dict (x : t) : doc :=
  list_to_map [
    ("created_at", VTime (created_at x));
    ("updated_at", VTime (updated_at x));
    ("symbol", VStr (symbol x));
    ("signal_type", VStr (RecommendationType.value (signal_type x)));
    ("quantity", VInt (quantity x));
    ("price_limit", opt_dec (price_limit x));
    ("stop_loss", opt_dec (stop_loss x));
    ("take_profit", opt_dec (take_profit x));
    ("confidence", VFloat (confidence x));
    ("reasoning", VStr (reasoning x));
    ("expires_at", opt_time (expires_at x))
  ].
End TradeSignal.

(** Fields typed [str] and [int] in shared/models.py hold a [VStr] and a
    [VInt]; another value there raises.  pydantic's coercions (a float
    such as 7.0 given for an int field) are not modelled, and the
    statements that depend on it ask for values of the field's type. *)
Definition as_str (v : pyval) : option string :=
  match v with VStr s => Some s | _ => None end.

Definition as_int (v : pyval) : option Z :=
  match v with VInt z => Some z | _ => None end.

(** ** portfolio-service/main.py: PortfolioManager *)
Module PortfolioManager.

Definition fee_rate : Decimal.t := Decimal.Mk false 1%N (-3).   (* Decimal('0.001') *)

(** [get_current_price]: the first daily price record of the symbol in
    [date] order; [None] when there is none (or on any exception). *)
Definition get_current_price (st : store) (symbol : pyval) : option Decimal.t :=
  match query_documents st "di_prices_daily" [("symbol", OpEq, symbol)]
                        (Some "date") (Some 1%nat) with
  | [] => None
  | p :: _ => let? v := p !! "close_price" in Py.decimal_of_str v
  end.

Definition position_filters (symbol : string) : list field_filter :=
  [("symbol", OpEq, VStr symbol); ("status", OpEq, VStr "active")].

(** The body of [update_positions]' try block; [None] when it raises
    (nothing has been written by then in any branch). *)
Definition update_positions_body (st : store) (clk : clock) (transaction : Transaction.t)
  : option store :=
  let symbol := Transaction.symbol transaction in
  let positions := query_documents st "pf_positions_active"
                                   (position_filters symbol) None None in
  match Transaction.transaction_type transaction with
  | TransactionType.BUY =>
      match positions with
      | position_data :: _ =>
          let? q := position_data !! "quantity" in
          let? existing_quantity := as_int q in
          let? c := position_data !! "average_cost" in
          let? existing_cost := Py.decimal_of_str c in
          let total_cost :=
            Decimal.add
              (Decimal.mul (Decimal.of_int existing_quantity) existing_cost)
              (Decimal.mul (Decimal.of_int (Transaction.quantity transaction))
                           (Transaction.price transaction)) in
          let new_quantity := existing_quantity + Transaction.quantity transaction in
          let? new_average_cost := Decimal.div total_cost (Decimal.of_int new_quantity) in
          let? stored_cost := Float.of_decimal new_average_cost in
          let position_data :=
            <["updated_at" := VTime (now clk)]>
              (<["average_cost" := VFloat stored_cost]>
                 (<["quantity" := VInt new_quantity]> position_data)) in
          let? i := position_data !! "id" in
          let? id := as_str i in
          Some (update_document st "pf_positions_active" id position_data)
      | [] =>
          let position := Position.Mk symbol (Transaction.quantity transaction)
                            (Transaction.price transaction) None None None
                            PositionStatus.ACTIVE
                            (Transaction.executed_at transaction) None
                            (utcnow clk) (utcnow clk) in
          let position_id :=
            (symbol +:+ "_" +:+ Datetime.strftime "" "" (now clk))%string in
          Some (upsert_document st "pf_positions_active" position_id
                                (Position.dict position))
      end
  | TransactionType.SELL =>
      match positions with
      | position_data :: _ =>
          let? q := position_data !! "quantity" in
          let? existing_quantity := as_int q in
          if existing_quantity <=? Transaction.quantity transaction then
            (* Close entire position *)
            let position_data :=
              <["quantity" := VInt 0]>
                (<["closed_at" := VTime (Transaction.executed_at transaction)]>
                   (<["status" := VStr (PositionStatus.value PositionStatus.CLOSED)]>
                      position_data)) in
            let? i := position_data !! "id" in
            let? id := as_str i in
            (* Move to historical positions, remove from active positions *)
            let st1 := upsert_document st "pf_positions_history" id position_data in
            Some (delete_document st1 "pf_positions_active" id)
          else
            (* Partial sell *)
            let position_data :=
              <["updated_at" := VTime (now clk)]>
                (<["quantity" := VInt (existing_quantity - Transaction.quantity transaction)]>
                   position_data) in
            let? i := position_data !! "id" in
            let? id := as_str i in
            Some (update_document st "pf_positions_active" id position_data)
      | [] => Some st
      end
  end.

(** [update_positions]: an exception is logged and swallowed. *)
Definition update_positions (st : store) (clk : clock) (transaction : Transaction.t) : store :=
  default st (update_positions_body st clk transaction).

(** The body of [execute_trade]'s try block.  The result is the
    returned transaction id (or the explicit [return None]) with the
    store; the outer [None] is a raised exception. *)
Definition execute_trade_body (st : store) (clk : clock) (signal : doc)
  : option (option string * store) :=
  let? symbol := signal !! "symbol" in
  let? signal_type := signal !! "signal_type" in
  let? quantity := signal !! "quantity" in
  (* Get current price *)
  match get_current_price st symbol with
  | None => Some (None, st)
  | Some current_price =>
      if Decimal.is_zero current_price then Some (None, st)
      else
        (* Use limit price if available, otherwise current price *)
        let? execution_price :=
          Py.decimal_of_str (default (VDec current_price) (signal !! "price_limit")) in
        let transaction_type :=
          match signal_type with
          | VStr "buy" => TransactionType.BUY
          | _ => TransactionType.SELL
          end in
        let? qty := as_int quantity in
        let total_amount := Decimal.mul execution_price (Decimal.of_int qty) in
        let fees := Decimal.mul total_amount fee_rate in
        let? sym := as_str symbol in
        let transaction :=
          Transaction.Mk sym transaction_type qty execution_price total_amount fees
                         (now clk) (utcnow clk) (utcnow clk) in
        let transaction_id :=
          (sym +:+ "_" +:+ TransactionType.value transaction_type +:+ "_"
               +:+ Datetime.strftime "" "" (now clk))%string in
        let st1 := upsert_document st "pf_transactions" transaction_id
                                   (Transaction.dict transaction) in
        let st2 := update_positions st1 clk transaction in
        Some (Some transaction_id, st2)
  end.

(** [execute_trade]: [None] is "no transaction". *)
Definition execute_trade (st : store) (clk : clock) (signal : doc)
  : option string * store :=
  default (None, st) (execute_trade_body st clk signal).

(** One iteration of the loop of [update_position_values]; the outer
    [None] is a raised exception. *)
Definition update_position_value (st : store) (clk : clock) (position : doc)
  : option store :=
  let? symbol := position !! "symbol" in
  let? q := position !! "quantity" in
  match get_current_price st symbol with
  | None => Some st
  | Some current_price =>
      if Decimal.is_zero current_price then Some st
      else
        let? quantity := as_int q in
        let market_value := Decimal.mul current_price (Decimal.of_int quantity) in
        let? c := position !! "average_cost" in
        let? average_cost := Py.decimal_of_str c in
        let unrealized_pnl :=
          Decimal.mul (Decimal.sub current_price average_cost) (Decimal.of_int quantity) in
        let? fp := Float.of_decimal current_price in
        let? fm := Float.of_decimal market_value in
        let? fu := Float.of_decimal unrealized_pnl in
        let position :=
          <["updated_at" := VTime (now clk)]>
            (<["unrealized_pnl" := VFloat fu]>
               (<["market_value" := VFloat fm]>
                  (<["current_price" := VFloat fp]> position))) in
        let? i := position !! "id" in
        let? id := as_str i in
        Some (update_document st "pf_positions_active" id position)
  end.

(** The for loop: an exception leaves the loop, what was written
    before stays written. *)
Fixpoint update_position_values_loop (st : store) (clk : clock) (positions : list doc)
  : store :=
  match positions with
  | [] => st
  | position :: rest =>
      match update_position_value st clk position with
      | Some st' => update_position_values_loop st' clk rest
      | None => st
      end
  end.

Definition update_position_values (st : store) (clk : clock) : store :=
  update_position_values_loop st clk
    (query_documents st "pf_positions_active" [("status", OpEq, VStr "active")] None None).

End PortfolioManager.

(** ** strategy-engine/main.py: RiskManager *)
Module RiskManager.

Definition max_position_size_pct : Float.t := Float.lit 10 100.   (* 0.10 *)
Definition stop_loss_pct : Float.t := Float.lit 8 100.            (* 0.08 *)
Definition take_profit_pct : Float.t := Float.lit 15 100.         (* 0.15 *)
Definition min_confidence_threshold : Float.t := Float.lit 80 1.  (* 80.0 *)

Definition default_value : Decimal.t := Decimal.of_int 10000.

(** The loop of [get_portfolio_value]; [None] when [Decimal(str(..))]
    raises. *)
Fixpoint sum_market_values (total_value : Decimal.t) (positions : list doc)
  : option Decimal.t :=
  match positions with
  | [] => Some total_value
  | position :: rest =>
      let market_value := default (VInt 0) (position !! "market_value") in
      if Py.truthy market_value then
        let? d := Py.decimal_of_str market_value in
        sum_market_values (Decimal.add total_value d) rest
      else sum_market_values total_value rest
  end.

Definition get_portfolio_value (st : store) : Decimal.t :=
  let positions := query_documents st "pf_positions_active"
                                   [("status", OpEq, VStr "active")] None None in
  match sum_market_values (Decimal.of_int 0) positions with
  | Some total_value =>
      if Decimal.is_zero total_value then default_value else total_value
  | None => default_value
  end.

Definition get_position_value (st : store) (symbol : pyval) : Decimal.t :=
  match query_documents st "pf_positions_active"
          [("symbol", OpEq, symbol); ("status", OpEq, VStr "active")] None None with
  | position :: _ =>
      default (Decimal.of_int 0)
              (Py.decimal_of_str (default (VInt 0) (position !! "market_value")))
  | [] => Decimal.of_int 0
  end.

(** The try block of [calculate_position_size], after
    [portfolio_value = await self.get_portfolio_value()]. *)
Definition shares_for (portfolio_value current_price : Decimal.t)
           (confidence : pyval) : option Z :=
  (* Base position size (percentage of portfolio) *)
  let? scaled := Py.truediv confidence (VInt 1000) in
  let? base_allocation := Py.min (VFloat max_position_size_pct) scaled in
  (* Adjust for confidence level *)
  let? fraction := Py.truediv confidence (VInt 100) in
  let? confidence_multiplier := Py.min fraction (VFloat (Float.lit 1 1)) in
  let? adjusted_allocation := Py.mul base_allocation confidence_multiplier in
  (* Calculate dollar amount *)
  let? a := Py.decimal_of_str adjusted_allocation in
  let position_value := Decimal.mul portfolio_value a in
  (* Calculate shares (minimum 1 share) *)
  let? per_share := Decimal.div position_value current_price in
  Some (Z.max 1 (Decimal.to_int per_share)).

Definition calculate_position_size (st : store) (current_price : Decimal.t)
           (confidence : pyval) : Z :=
  default 1 (shares_for (get_portfolio_value st) current_price confidence).

Definition pct (f : Float.t) : Decimal.t := Float.to_decimal_via_str f.

Definition calculate_stop_loss (entry_price : Decimal.t)
           (signal_type : RecommendationType.t) : Decimal.t :=
  match signal_type with
  | RecommendationType.BUY =>
      Decimal.mul entry_price (Decimal.sub (Decimal.of_int 1) (pct stop_loss_pct))
  | RecommendationType.SELL =>
      Decimal.mul entry_price (Decimal.add (Decimal.of_int 1) (pct stop_loss_pct))
  | RecommendationType.HOLD => entry_price
  end.

Definition calculate_take_profit (entry_price : Decimal.t)
           (signal_type : RecommendationType.t) : Decimal.t :=
  match signal_type with
  | RecommendationType.BUY =>
      Decimal.mul entry_price (Decimal.add (Decimal.of_int 1) (pct take_profit_pct))
  | RecommendationType.SELL =>
      Decimal.mul entry_price (Decimal.sub (Decimal.of_int 1) (pct take_profit_pct))
  | RecommendationType.HOLD => entry_price
  end.

(** False iff there are 20 active positions or more. *)
Definition check_portfolio_risk_limits (st : store) : bool :=
  let positions := query_documents st "pf_positions_active"
                                   [("status", OpEq, VStr "active")] None None in
  negb (20 <=? Z.of_nat (length positions)).

End RiskManager.

(** ** strategy-engine/main.py: StrategyEngine *)
Module StrategyEngine.

Definition get_current_price (st : store) (symbol : pyval) : option Decimal.t :=
  match query_documents st "di_prices_daily" [("symbol", OpEq, symbol)]
                        (Some "date") (Some 1%nat) with
  | [] => None
  | p :: _ => let? v := p !! "close_price" in Py.decimal_of_str v
  end.

Definition get_recent_ml_recommendations (st : store) (clk : clock) : list doc :=
  let cutoff_time := now clk - Datetime.hours 24 in
  query_documents st "ml_recommendations_log"
                  [("created_at", OpGe, VTime cutoff_time)] (Some "created_at") None.

Definition apply_buy_filters_body (st : store) (recommendation : doc) : option bool :=
  let? symbol := recommendation !! "symbol" in
  let? confidence := recommendation !! "confidence_score" in
  (* Confidence threshold *)
  let? low := Py.lt confidence (VFloat RiskManager.min_confidence_threshold) in
  if low then Some false
  else
    (* Check if we already have a position *)
    let existing_position := RiskManager.get_position_value st symbol in
    if Decimal.ltb (Decimal.of_int 0) existing_position then Some false
    else
      (* Check portfolio risk limits *)
      if negb (RiskManager.check_portfolio_risk_limits st) then Some false
      else Some true.

Definition apply_buy_filters (st : store) (recommendation : doc) : bool :=
  default false (apply_buy_filters_body st recommendation).

Definition apply_sell_filters (st : store) (recommendation : doc) : bool :=
  match recommendation !! "symbol" with
  | Some symbol =>
      let existing_position := RiskManager.get_position_value st symbol in
      (* existing_position <= 0 *)
      if negb (Decimal.ltb (Decimal.of_int 0) existing_position) then false else true
  | None => false
  end.

(** [generate_trade_signal]; [None] covers both [return None] and a
    swallowed exception. *)
Definition generate_trade_signal (st : store) (clk : clock) (recommendation : doc)
  : option TradeSignal.t :=
  let? symbol := recommendation !! "symbol" in
  let? r := recommendation !! "recommendation" in
  let? rec_type := RecommendationType.of_value r in
  let? confidence := recommendation !! "confidence_score" in
  (* Get current price *)
  let? current_price := get_current_price st symbol in
  if Decimal.is_zero current_price then None
  else
    let? quantity :=
      match rec_type with
      | RecommendationType.BUY =>
          if negb (apply_buy_filters st recommendation) then None
          else Some (VInt (RiskManager.calculate_position_size st current_price confidence))
      | RecommendationType.SELL =>
          if negb (apply_sell_filters st recommendation) then None
          else
            (* For sell signals, sell entire position *)
            match query_documents st "pf_positions_active"
                    [("symbol", OpEq, symbol); ("status", OpEq, VStr "active")]
                    None None with
            | [] => None
            | position :: _ => position !! "quantity"
            end
      | RecommendationType.HOLD => None
      end in
    let stop_loss := RiskManager.calculate_stop_loss current_price rec_type in
    let take_profit := RiskManager.calculate_take_profit current_price rec_type in
    let? text := Py.format_1f confidence in
    let? sym := as_str symbol in
    let? q := as_int quantity in
    let? conf := Py.to_float confidence in
    Some (TradeSignal.Mk sym rec_type (Z.abs q) (Some current_price)
            (Some stop_loss) (Some take_profit) conf
            ("ML recommendation with " +:+ text +:+ "% confidence")%string
            (Some (now clk + Datetime.hours 24)) (utcnow clk) (utcnow clk)).

(** The for loop of [process_ml_recommendations] over the reversed
    recommendations.  The signals come back in append order; [None]
    for them is a raised exception (a recommendation without a
    symbol), which makes the function return []. *)
Fixpoint process_loop (st : store) (clk : clock) (recs : list doc)
         (signals : list TradeSignal.t) (processed_symbols : gset string)
  : option (list TradeSignal.t) * store :=
  match recs with
  | [] => (Some signals, st)
  | rec :: rest =>
      match rec !! "symbol" with
      | None => (None, st)
      | Some symbol =>
          (* Skip if we already processed this symbol *)
          if match symbol with
             | VStr s => bool_decide (s ∈ processed_symbols)
             | _ => false
             end
          then process_loop st clk rest signals processed_symbols
          else
            match generate_trade_signal st clk rec with
            | Some signal =>
                let s := TradeSignal.symbol signal in
                let doc_id :=
                  (s +:+ "_" +:+ Datetime.strftime "-" "-" (now clk))%string in
                process_loop
                  (upsert_document st "se_trade_signals" doc_id (TradeSignal.dict signal))
                  clk rest (signals ++ [signal]) ({[ s ]} ∪ processed_symbols)
            | None => process_loop st clk rest signals processed_symbols
            end
      end
  end.

Definition process_ml_recommendations (st : store) (clk : clock)
  : list TradeSignal.t * store :=
  match get_recent_ml_recommendations st clk with
  | [] => ([], st)
  | recommendations =>
      let '(r, st') := process_loop st clk (rev recommendations) [] ∅ in
      (default [] r, st')
  end.

End StrategyEngine.

(** ** data-ingestion/orchestrator/main.py: OrchestrationEngine *)
Module DataProvider.
Inductive t := ALPHAVANTAGE | FINNHUB | POLYGON | TIINGO.
Definition value (p : t) : string :=
  match p with
  | ALPHAVANTAGE => "alphavantage"
  | FINNHUB => "finnhub"
  | POLYGON => "polygon"
  | TIINGO => "tiingo"
  end.
End DataProvider.

Module OrchestrationEngine.

(** [self.api_call_counts] (a dict keyed by provider value) and
    [self.last_reset]. *)
Record t := Mk { api_call_counts : gmap string Z; last_reset : Z }.

Definition SERVICE_URLS (p : DataProvider.t) : option string :=
  Some match p with
       | DataProvider.ALPHAVANTAGE => "http://alphavantage-service:8080"
       | DataProvider.FINNHUB => "http://finnhub-service:8080"
       | DataProvider.POLYGON => "http://polygon-service:8080"
       | DataProvider.TIINGO => "http://tiingo-service:8080"
       end.

(** Free tier limits *)
Definition DAILY_LIMITS (p : DataProvider.t) : option Z :=
  Some match p with
       | DataProvider.ALPHAVANTAGE => 100
       | DataProvider.FINNHUB => 250
       | DataProvider.POLYGON => 100
       | DataProvider.TIINGO => 500
       end.

Definition reset_api_counters_if_needed (self : t) (now : Z) : t :=
  if 1 <=? Datetime.days_between now (last_reset self)
  then Mk ∅ now
  else self.

Definition current_count (self : t) (provider : DataProvider.t) : Z :=
  default 0 (api_call_counts self !! DataProvider.value provider).

(** Returns the answer and the engine after the lazy reset. *)
Definition can_make_api_call (self : t) (now : Z) (provider : DataProvider.t)
  : bool * t :=
  let self := reset_api_counters_if_needed self now in
  let limit := default 100 (DAILY_LIMITS provider) in
  (current_count self provider <? limit, self).

Definition increment_api_call_count (self : t) (provider : DataProvider.t) : t :=
  Mk (<[DataProvider.value provider := current_count self provider + 1]>
        (api_call_counts self))
     (last_reset self).

(** [s.replace(pat, rep)] for a non-empty [pat]; [skip] characters of
    a match just replaced are still to be dropped. *)
Fixpoint replace_from (skip : nat) (pat rep s : string) : string :=
  match s with
  | EmptyString => EmptyString
  | String c s' =>
      match skip with
      | S k => replace_from k pat rep s'
      | O =>
          if String.prefix pat s
          then (rep +:+ replace_from (String.length pat - 1) pat rep s')%string
          else String c (replace_from O pat rep s')
      end
  end.

Definition endpoint_url (base_url endpoint : string) (symbol : option string) : string :=
  let url := (base_url +:+ "/" +:+ endpoint)%string in
  match symbol with
  | Some (String c s) => replace_from O "{symbol}" (String c s) url
  | _ => url
  end.

(** [call_service_endpoint].  [post url] is the outcome of
    [http_client.post(url)] followed by [raise_for_status()]: [true]
    when neither raises. *)
Definition call_service_endpoint (post : string → bool) (self : t) (now : Z)
           (provider : DataProvider.t) (endpoint : string) (symbol : option string)
  : bool * t :=
  let '(allowed, self) := can_make_api_call self now provider in
  if negb allowed then (false, self)
  else
    match SERVICE_URLS provider with
    | None => (false, self)
    | Some base_url =>
        if post (endpoint_url base_url endpoint symbol)
        then (true, increment_api_call_count self provider)
        else (false, self)
    end.

End OrchestrationEngine.

(** * Properties *)

(** ** Rate budget tracker *)
Section RateBudget.
Import OrchestrationEngine.

(** The daily quota of each provider, as the spec lists them. *)
Definition quota (p : DataProvider.t) : Z :=
  match p with
  | DataProvider.ALPHAVANTAGE => 100
  | DataProvider.FINNHUB => 250
  | DataProvider.POLYGON => 100
  | DataProvider.TIINGO => 500
  end.

Lemma limit_is_quota p : default 100 (DAILY_LIMITS p) = quota p.
Proof. by destruct p. Qed.

Lemma quota_pos p : 0 < quota p.
Proof. destruct p; simpl; lia. Qed.

Lemma value_inj p q : DataProvider.value p = DataProvider.value q → p = q.
Proof. by destruct p, q. Qed.

Lemma reset_due self now :
  1 ≤ Datetime.days_between now (last_reset self) →
  reset_api_counters_if_needed self now = Mk ∅ now.
Proof.
  intros H. unfold reset_api_counters_if_needed.
  by destruct (Z.leb_spec 1 (Datetime.days_between now (last_reset self))); [|lia].
Qed.

Lemma reset_not_due self now :
  Datetime.days_between now (last_reset self) < 1 →
  reset_api_counters_if_needed self now = self.
Proof.
  intros H. unfold reset_api_counters_if_needed.
  by destruct (Z.leb_spec 1 (Datetime.days_between now (last_reset self))); [lia|].
Qed.

Lemma count_after_clear now p : current_count (Mk ∅ now) p = 0.
Proof. unfold current_count; simpl. by rewrite lookup_empty. Qed.

Lemma can_make_api_call_eq self now p :
  can_make_api_call self now p =
  (current_count (reset_api_counters_if_needed self now) p <? quota p,
   reset_api_counters_if_needed self now).
Proof. unfold can_make_api_call. by rewrite limit_is_quota. Qed.

Lemma can_call_cleared t now p : (can_make_api_call (Mk ∅ t) now p).1 = true.
Proof.
  rewrite can_make_api_call_eq. cbn [fst].
  unfold reset_api_counters_if_needed.
  destruct (1 <=? _); rewrite count_after_clear;
    apply Z.ltb_lt, quota_pos.
Qed.

Lemma count_increment_same self p :
  current_count (increment_api_call_count self p) p = current_count self p + 1.
Proof.
  unfold increment_api_call_count, current_count at 1; simpl.
  by rewrite lookup_insert_eq.
Qed.

Lemma count_increment_other self p q :
  p ≠ q →
  current_count (increment_api_call_count self p) q = current_count self q.
Proof.
  intros Hne. unfold increment_api_call_count, current_count; simpl.
  rewrite lookup_insert_ne; [done|]. intros E. by apply Hne, value_inj.
Qed.

End RateBudget.

(** C6.  [can_make_api_call] answers False whenever the calls recorded
    for the provider in the current window (the counters as they stand
    after the lazy reset this very call performs) have reached the
    provider's quota of 100/250/100/500; and once a reset is due (at
    least one day since the last one) the counters are cleared, the
    reset instant is recorded, and the engine answers True for every
    provider, on this call and on whatever call comes next. *)
Theorem can_make_api_call_respects_quota
        (self : OrchestrationEngine.t) (now : Z) (provider : DataProvider.t) :
  let self' := OrchestrationEngine.reset_api_counters_if_needed self now in
  (OrchestrationEngine.can_make_api_call self now provider).2 = self' ∧
  (quota provider ≤ OrchestrationEngine.current_count self' provider →
   (OrchestrationEngine.can_make_api_call self now provider).1 = false) ∧
  (1 ≤ Datetime.days_between now (OrchestrationEngine.last_reset self) →
   OrchestrationEngine.api_call_counts self' = ∅ ∧
   OrchestrationEngine.last_reset self' = now ∧
   (OrchestrationEngine.can_make_api_call self now provider).1 = true ∧
   ∀ p now', (OrchestrationEngine.can_make_api_call self' now' p).1 = true).
Proof.
  intros self'. rewrite can_make_api_call_eq. cbn [fst snd]. fold self'.
  split; [done|]. split.
  - intros Hq. apply Z.ltb_ge. exact Hq.
  - intros Hdue. subst self'. rewrite (reset_due _ _ Hdue).
    cbn [OrchestrationEngine.api_call_counts OrchestrationEngine.last_reset].
    split; [done|]. split; [done|]. split.
    + rewrite count_after_clear. apply Z.ltb_lt, quota_pos.
    + intros p now'. apply can_call_cleared.
Qed.

(** An engine that has used up the FINNHUB quota forty minutes after its
    last reset, and the same engine looked at two days later. *)
Definition spent_engine : OrchestrationEngine.t :=
  OrchestrationEngine.Mk {[ "finnhub" := 250 ]} 1793779200000000.

Lemma can_make_api_call_respects_quota_witness :
  (OrchestrationEngine.can_make_api_call
     spent_engine 1793781600000000 DataProvider.FINNHUB).1 = false ∧
  (OrchestrationEngine.can_make_api_call
     spent_engine 1793952000000000 DataProvider.FINNHUB).1 = true.
Proof.
  split.
  - refine (proj1 (proj2 (can_make_api_call_respects_quota
                            spent_engine 1793781600000000 DataProvider.FINNHUB)) _).
    compute_done.
  - refine (proj1 (proj2 (proj2 (proj2 (proj2
              (can_make_api_call_respects_quota
                 spent_engine 1793952000000000 DataProvider.FINNHUB)) _)))).
    compute_done.
Defined.

(** C7, as stated, fails: a call that passed the budget check and whose
    outbound request failed leaves the provider's counter where it was. *)
Lemma failed_call_is_not_counted :
  let self := OrchestrationEngine.Mk {[ "finnhub" := 3 ]} 1793779200000000 in
  let r := OrchestrationEngine.call_service_endpoint
             (λ _, false) self 1793781600000000 DataProvider.FINNHUB
             "ingest/quote/{symbol}" (Some "AAPL") in
  (OrchestrationEngine.can_make_api_call
     self 1793781600000000 DataProvider.FINNHUB).1 = true ∧
  r.1 = false ∧
  OrchestrationEngine.current_count r.2 DataProvider.FINNHUB = 3 ∧
  OrchestrationEngine.current_count r.2 DataProvider.FINNHUB
    ≠ OrchestrationEngine.current_count self DataProvider.FINNHUB + 1.
Proof. vm_compute. repeat split; discriminate. Qed.

(** C7, amended.  After the budget check passes, the provider's counter
    is incremented by one exactly when the POST to the service URL
    succeeded (no exception, success status), and then no other
    provider's counter moves; when the request fails the call returns
    False and the counters stay as the budget check left them. *)
Theorem call_service_endpoint_counts_successes
        (post : string → bool) (self : OrchestrationEngine.t) (now : Z)
        (provider : DataProvider.t) (endpoint : string) (symbol : option string)
        (base_url : string) :
  (OrchestrationEngine.can_make_api_call self now provider).1 = true →
  OrchestrationEngine.SERVICE_URLS provider = Some base_url →
  let self' := OrchestrationEngine.reset_api_counters_if_needed self now in
  let r := OrchestrationEngine.call_service_endpoint
             post self now provider endpoint symbol in
  if post (OrchestrationEngine.endpoint_url base_url endpoint symbol)
  then r.1 = true ∧
       OrchestrationEngine.current_count r.2 provider
         = OrchestrationEngine.current_count self' provider + 1 ∧
       (∀ q, q ≠ provider →
             OrchestrationEngine.current_count r.2 q
               = OrchestrationEngine.current_count self' q) ∧
       OrchestrationEngine.last_reset r.2 = OrchestrationEngine.last_reset self'
  else r = (false, self').
Proof.
  intros Hok Hurl self' r. subst r.
  unfold OrchestrationEngine.call_service_endpoint.
  rewrite can_make_api_call_eq in Hok |- *. cbn [fst] in Hok.
  rewrite Hok. fold self'. cbn [negb]. rewrite Hurl.
  destruct (post _); [|done].
  cbn [fst snd]. split; [done|]. split; [apply count_increment_same|].
  split; [|done]. intros q Hq. by apply count_increment_other.
Qed.

Lemma call_service_endpoint_counts_successes_witness :
  let self := OrchestrationEngine.Mk {[ "finnhub" := 3 ]} 1793779200000000 in
  let r := OrchestrationEngine.call_service_endpoint
             (λ url, String.eqb url "http://finnhub-service:8080/ingest/quote/AAPL")
             self 1793781600000000 DataProvider.FINNHUB
             "ingest/quote/{symbol}" (Some "AAPL") in
  r.1 = true ∧ OrchestrationEngine.current_count r.2 DataProvider.FINNHUB = 4.
Proof.
  intros self r.
  pose proof (call_service_endpoint_counts_successes
                (λ url, String.eqb url "http://finnhub-service:8080/ingest/quote/AAPL")
                self 1793781600000000 DataProvider.FINNHUB
                "ingest/quote/{symbol}" (Some "AAPL")
                "http://finnhub-service:8080" eq_refl eq_refl) as H.
  cbv beta zeta in H.
  assert (String.eqb
            (OrchestrationEngine.endpoint_url
               "http://finnhub-service:8080" "ingest/quote/{symbol}" (Some "AAPL"))
            "http://finnhub-service:8080/ingest/quote/AAPL" = true) as E
      by reflexivity.
  rewrite E in H. destruct H as (H1 & H2 & _).
  split; [exact H1 | exact (eq_trans H2 eq_refl)].
Defined.

(** Case analysis on whatever the goal matches on. *)
Ltac split_goal :=
  repeat match goal with
         | |- context [match ?x with _ => _ end] => destruct x eqn:?
         end.

(** ** The document store: queries and writes *)
Section StoreFacts.

Lemma encodable_spec (d : doc) :
  encodable d = true ↔ ∀ k v, d !! k = Some v → storable v = true.
Proof. unfold encodable. by rewrite bool_decide_eq_true. Qed.

Lemma encodable_refused (d : doc) k x :
  d !! k = Some (VDec x) → encodable d = false.
Proof.
  intros H. destruct (encodable d) eqn:E; [|done].
  by apply (proj1 (encodable_spec d) E k) in H.
Qed.

Lemma encodable_no_decimal (d : doc) :
  (∀ k x, d !! k ≠ Some (VDec x)) → encodable d = true.
Proof.
  intros H. apply encodable_spec. intros k v Hk.
  destruct v as [| | |x| |]; try reflexivity. by destruct (H k x).
Qed.

Lemma encodable_empty : encodable (∅ : doc) = true.
Proof. apply encodable_spec. intros k v H. by rewrite lookup_empty in H. Qed.

Lemma encodable_insert (d : doc) k v :
  storable v = true → encodable d = true → encodable (<[k := v]> d) = true.
Proof.
  rewrite !encodable_spec. intros Hv Hd j w.
  destruct (decide (k = j)) as [->|Hne].
  - rewrite lookup_insert_eq. by intros [= <-].
  - rewrite lookup_insert_ne by done. apply Hd.
Qed.

Lemma encodable_union (d1 d2 : doc) :
  encodable d1 = true → encodable d2 = true → encodable (d1 ∪ d2) = true.
Proof.
  rewrite !encodable_spec. intros H1 H2 k v Hk.
  apply lookup_union_Some_raw in Hk as [Hk|[_ Hk]]; eauto.
Qed.

Lemma encodable_list (l : list (string * pyval)) :
  forallb (λ kv, storable kv.2) l = true → encodable (list_to_map l) = true.
Proof.
  induction l as [|[k v] l IH]; cbn [forallb list_to_map foldr snd];
    [intros _; apply encodable_empty|].
  intros [Hv Hl]%andb_true_iff. apply encodable_insert; [done|by apply IH].
Qed.

Lemma stored_part_encodable (d : doc) : encodable (stored_part d) = true.
Proof.
  apply encodable_spec. intros k v H. unfold stored_part in H.
  by apply map_lookup_filter_Some in H as [_ H].
Qed.

Lemma stored_part_id (d : doc) : encodable d = true → stored_part d = d.
Proof.
  rewrite encodable_spec. intros H. apply map_filter_id. intros k v Hk. by apply (H k).
Qed.

(** A collection as a store holds it. *)
Definition clean (m : collection) : Prop :=
  ∀ id (d : doc), m !! id = Some d → encodable d = true.

Lemma clean_stored_part (m : collection) : clean m → stored_part <$> m = m.
Proof.
  intros H. apply map_eq. intros id. rewrite lookup_fmap.
  destruct (m !! id) as [d|] eqn:E; [|done]. cbn. by rewrite stored_part_id by eauto.
Qed.

Lemma coll_clean (st : store) c : clean (coll st c).
Proof.
  intros id d. unfold coll. rewrite lookup_fmap.
  destruct (default ∅ (st !! c) !! id); [|done]. intros [= <-].
  apply stored_part_encodable.
Qed.

Lemma coll_encodable (st : store) c id (d : doc) :
  coll st c !! id = Some d → encodable d = true.
Proof. apply coll_clean. Qed.

Lemma clean_insert (m : collection) id (d : doc) :
  clean m → encodable d = true → clean (<[id := d]> m).
Proof.
  intros Hm Hd j x. destruct (decide (id = j)) as [->|Hne].
  - rewrite lookup_insert_eq. by intros [= <-].
  - rewrite lookup_insert_ne by done. apply Hm.
Qed.

Lemma clean_delete (m : collection) id : clean m → clean (delete id m).
Proof. intros Hm j x Hj. apply lookup_delete_Some in Hj as [_ Hj]. by apply (Hm j). Qed.

Lemma coll_insert_eq (st : store) c x : clean x → coll (<[c := x]> st) c = x.
Proof.
  intros H. unfold coll. rewrite lookup_insert_eq. cbn. by apply clean_stored_part.
Qed.

Lemma coll_insert_ne (st : store) c c' x :
  c ≠ c' → coll (<[c := x]> st) c' = coll st c'.
Proof. intros H. unfold coll. by rewrite lookup_insert_ne. Qed.

(** The writes, on the collection written to and on the others. *)
Lemma upsert_document_refused st c id (data : doc) :
  encodable data = false → upsert_document st c id data = st.
Proof. intros H. unfold upsert_document. by rewrite H. Qed.

Lemma coll_upsert_document st c id (data : doc) :
  encodable data = true →
  coll (upsert_document st c id data) c
  = <[id := data ∪ default ∅ (coll st c !! id)]> (coll st c).
Proof.
  intros H. unfold upsert_document. rewrite H. apply coll_insert_eq.
  apply clean_insert; [apply coll_clean|]. apply encodable_union; [done|].
  destruct (coll st c !! id) as [old|] eqn:E; cbn;
    [by apply coll_encodable in E|apply encodable_empty].
Qed.

Lemma coll_upsert_document_ne st c c' pid (data : doc) :
  c ≠ c' → coll (upsert_document st c pid data) c' = coll st c'.
Proof.
  intros H. unfold upsert_document. destruct (encodable data); [|done].
  by rewrite coll_insert_ne.
Qed.

Lemma update_document_refused st c id (data : doc) :
  encodable data = false → update_document st c id data = st.
Proof. intros H. unfold update_document. rewrite H. by destruct (coll st c !! id). Qed.

Lemma coll_update_document st c id (data old : doc) :
  coll st c !! id = Some old → encodable data = true →
  coll (update_document st c id data) c = <[id := data ∪ old]> (coll st c).
Proof.
  intros Hold H. unfold update_document. rewrite Hold, H. apply coll_insert_eq.
  apply clean_insert; [apply coll_clean|]. apply encodable_union; [done|].
  by apply coll_encodable in Hold.
Qed.

Lemma coll_update_document_ne st c c' pid (data : doc) :
  c ≠ c' → coll (update_document st c pid data) c' = coll st c'.
Proof.
  intros H. unfold update_document.
  destruct (coll st c !! pid); [|done]. destruct (encodable data); [|done].
  by rewrite coll_insert_ne.
Qed.

Lemma coll_delete_document st c id :
  coll (delete_document st c id) c = delete id (coll st c).
Proof.
  unfold delete_document. apply coll_insert_eq, clean_delete, coll_clean.
Qed.

Lemma coll_delete_document_ne st c c' pid :
  c ≠ c' → coll (delete_document st c pid) c' = coll st c'.
Proof. intros H. unfold delete_document. by rewrite coll_insert_ne. Qed.

(** A document as a query returns it can be written back. *)
Lemma encodable_with_id (st : store) c id (d : doc) :
  coll st c !! id = Some d → encodable (with_id (id, d)) = true.
Proof.
  intros H. unfold with_id. apply encodable_insert; [done|]. by apply coll_encodable in H.
Qed.

Lemma insert_sorted_perm leb x l : insert_sorted leb x l ≡ₚ x :: l.
Proof.
  induction l as [|y l IH]; simpl; [done|].
  destruct (leb x y); [done|]. rewrite IH. apply perm_swap.
Qed.

Lemma sort_perm leb l : sort leb l ≡ₚ l.
Proof.
  induction l as [|x l IH]; simpl; [done|].
  rewrite insert_sorted_perm. by rewrite IH.
Qed.

(** The entries a query selects, before ordering and limiting. *)
Definition selection (st : store) (c : string) (filters : list field_filter)
           (order_by : option string) : list entry :=
  List.filter (selected filters order_by) (map_to_list (coll st c)).

Lemma elem_of_selection st c fs ob (e : entry) :
  e ∈ selection st c fs ob ↔
  coll st c !! e.1 = Some e.2 ∧ selected fs ob e = true.
Proof.
  destruct e as [i d]. unfold selection.
  rewrite list_elem_of_In, filter_In, <- list_elem_of_In.
  by rewrite elem_of_map_to_list.
Qed.

Lemma NoDup_filter_fst (P : entry → bool) (l : list entry) :
  NoDup l.*1 → NoDup (List.filter P l).*1.
Proof.
  induction l as [|e l IH]; simpl; [done|].
  rewrite NoDup_cons. intros [Hnot Hnd].
  destruct (P e); simpl; [|by apply IH].
  apply NoDup_cons. split; [|by apply IH].
  intros Hin. apply Hnot.
  apply list_elem_of_fmap in Hin as (y & -> & Hy).
  apply list_elem_of_fmap. exists y. split; [done|].
  apply list_elem_of_In in Hy. apply filter_In in Hy as [Hy _].
  by apply list_elem_of_In.
Qed.

Lemma NoDup_selection st c fs ob : NoDup (selection st c fs ob).*1.
Proof. apply NoDup_filter_fst, NoDup_fst_map_to_list. Qed.

Lemma query_documents_unlimited st c fs ob :
  query_documents st c fs ob None
  = with_id <$> sort (entry_leb ob) (selection st c fs ob).
Proof. done. Qed.

(** Every query result is a stored document with its id put in. *)
Lemma query_documents_elem st c fs ob lim (d : doc) :
  d ∈ query_documents st c fs ob lim →
  ∃ id stored, coll st c !! id = Some stored ∧
               d = <["id" := VStr id]> stored ∧
               selected fs ob (id, stored) = true.
Proof.
  unfold query_documents. fold (selection st c fs ob).
  intros Hd. apply list_elem_of_fmap in Hd as ([id stored] & -> & He).
  assert ((id, stored) ∈ sort (entry_leb ob) (selection st c fs ob)) as Hs.
  { destruct lim as [[|n]|]; [done| |done]. by apply (subseteq_take (S n)). }
  rewrite sort_perm in Hs. apply elem_of_selection in Hs as [Hl Hsel].
  by exists id, stored.
Qed.

Lemma query_documents_head st c fs ob lim (d : doc) rest :
  query_documents st c fs ob lim = d :: rest →
  ∃ id stored, coll st c !! id = Some stored ∧
               d = <["id" := VStr id]> stored ∧
               selected fs ob (id, stored) = true.
Proof.
  intros H. apply (query_documents_elem st c fs ob lim). rewrite H. left.
Qed.

(** A query reads one collection only. *)
Lemma query_documents_ext st st' c fs ob lim :
  coll st c = coll st' c →
  query_documents st c fs ob lim = query_documents st' c fs ob lim.
Proof. intros H. unfold query_documents. by rewrite H. Qed.

Lemma string_compare_refl s : String.compare s s = Eq.
Proof.
  pose proof (String.compare_antisym s s) as H.
  by destruct (String.compare s s).
Qed.

Lemma val_compare_str a b : val_compare (VStr a) (VStr b) = String.compare a b.
Proof. done. Qed.

Lemma val_compare_time a b : val_compare (VTime a) (VTime b) = Z.compare a b.
Proof. done. Qed.

Lemma matches_eq_str f s (d : doc) :
  matches (f, OpEq, VStr s) d = true ↔ d !! f = Some (VStr s).
Proof.
  unfold matches. split.
  - destruct (d !! f) as [x|]; [|done].
    destruct x; try done. rewrite val_compare_str. cbn [rank Z.eqb andb].
    destruct (String.compare s0 s) eqn:E; try done.
    apply String.compare_eq_iff in E. by subst.
  - intros ->. rewrite val_compare_str.
    by rewrite string_compare_refl.
Qed.

(** A dict that already has every key of [m2] wins the merge whole. *)
Lemma union_cover (m1 m2 : doc) :
  (∀ k, is_Some (m2 !! k) → is_Some (m1 !! k)) → m1 ∪ m2 = m1.
Proof.
  intros H. apply map_eq. intros k. rewrite lookup_union.
  destruct (m1 !! k) eqn:E1, (m2 !! k) eqn:E2; simpl; try done.
  destruct (H k) as [x Hx]; [by rewrite E2|]. congruence.
Qed.

Lemma cover_insert (m1 m2 : doc) k v :
  (∀ j, is_Some (m2 !! j) → is_Some (m1 !! j)) →
  ∀ j, is_Some (m2 !! j) → is_Some (<[k := v]> m1 !! j).
Proof.
  intros H j Hj. rewrite lookup_insert_is_Some.
  destruct (decide (k = j)); [by left|right]. split; [done|]. by apply H.
Qed.

Lemma cover_refl (m : doc) : ∀ j, is_Some (m !! j) → is_Some (m !! j).
Proof. done. Qed.

Lemma update_document_hit st c id (data old : doc) :
  coll st c !! id = Some old →
  (∀ k, is_Some (old !! k) → is_Some (data !! k)) →
  encodable data = true →
  update_document st c id data = <[c := <[id := data]> (coll st c)]> st.
Proof.
  intros Hold Hcov Henc. unfold update_document. rewrite Hold, Henc.
  by rewrite (union_cover _ _ Hcov).
Qed.

Lemma coll_update_document_hit st c id (data old : doc) :
  coll st c !! id = Some old →
  (∀ k, is_Some (old !! k) → is_Some (data !! k)) →
  encodable data = true →
  coll (update_document st c id data) c = <[id := data]> (coll st c).
Proof.
  intros Hold Hcov Henc.
  by rewrite (coll_update_document _ _ _ _ _ Hold Henc), (union_cover _ _ Hcov).
Qed.

(** The records of a collection that carry a given id, as a reader
    listing the collection sees them. *)
Definition has_id (id : string) (d : doc) : bool :=
  match d !! "id" with
  | Some (VStr s) => String.eqb s id
  | _ => false
  end.

Definition records_with_id (st : store) (c id : string) : list doc :=
  List.filter (has_id id) (query_documents st c [] None None).

Lemma filter_length_perm {A} (P : A → bool) (l k : list A) :
  l ≡ₚ k → length (List.filter P l) = length (List.filter P k).
Proof.
  induction 1 as [|x l k _ IH|x y l|l k m _ IH1 _ IH2]; simpl.
  - done.
  - destruct (P x); simpl; congruence.
  - destruct (P x), (P y); simpl; done.
  - congruence.
Qed.

Lemma filter_none {A} (P : A → bool) (l : list A) :
  (∀ x, x ∈ l → P x = false) → List.filter P l = [].
Proof.
  induction l as [|x l IH]; simpl; [done|]. intros H.
  rewrite (H x) by left. apply IH. intros y Hy. apply H. by right.
Qed.

Lemma filter_all {A} (P : A → bool) (l : list A) :
  (∀ x, x ∈ l → P x = true) → List.filter P l = l.
Proof.
  induction l as [|x l IH]; simpl; [done|]. intros H.
  rewrite (H x) by left. f_equal. apply IH. intros y Hy. apply H. by right.
Qed.

Lemma filter_fmap {A B} (f : A → B) (P : B → bool) (l : list A) :
  List.filter P (f <$> l) = f <$> List.filter (λ x, P (f x)) l.
Proof.
  induction l as [|x l IH]; [done|].
  rewrite fmap_cons. cbn [List.filter].
  destruct (P (f x)); rewrite IH; by try rewrite fmap_cons.
Qed.

Lemma has_id_with_id id (e : entry) : has_id id (with_id e) = String.eqb e.1 id.
Proof. unfold has_id, with_id. by rewrite lookup_insert_eq. Qed.

(** Listing a collection shows one record per stored id. *)
Lemma records_with_id_length st c id :
  length (records_with_id st c id)
  = match coll st c !! id with Some _ => 1%nat | None => 0%nat end.
Proof.
  unfold records_with_id. rewrite query_documents_unlimited.
  rewrite filter_fmap, length_fmap.
  rewrite (filter_length_perm _ _ _ (sort_perm _ _)).
  unfold selection. rewrite (filter_all (selected [] None)) by done.
  destruct (coll st c !! id) as [d|] eqn:E.
  - rewrite <- (filter_length_perm _ _ _ (map_to_list_delete _ _ _ E)).
    cbn [List.filter]. rewrite has_id_with_id. cbn [fst].
    rewrite String.eqb_refl. cbn [length]. f_equal.
    rewrite filter_none; [done|].
    intros [j x] Hx. rewrite has_id_with_id. simpl.
    apply elem_of_map_to_list in Hx. apply String.eqb_neq. intros ->.
    by rewrite lookup_delete_eq in Hx.
  - rewrite filter_none; [done|].
    intros [j x] Hx. rewrite has_id_with_id. simpl.
    apply elem_of_map_to_list in Hx. apply String.eqb_neq. intros ->.
    congruence.
Qed.

End StoreFacts.

(** ** Position ledger *)

(** A small portfolio used to exercise the ledger: ten AAPL shares
    bought at 150.0, and one daily price record. *)
Definition example_clock : clock := Clock 1793779200000000 1793750400000000.

Definition example_position : doc :=
  list_to_map [
    ("symbol", VStr "AAPL"); ("quantity", VInt 10);
    ("average_cost", VFloat (Float.lit 150 1));
    ("current_price", VNone); ("market_value", VNone); ("unrealized_pnl", VNone);
    ("status", VStr "active"); ("opened_at", VTime 1793525400000000);
    ("closed_at", VNone);
    ("created_at", VTime 1793525400000000); ("updated_at", VTime 1793525400000000)
  ].

Definition example_price : doc :=
  list_to_map [
    ("symbol", VStr "AAPL"); ("date", VTime 1793664000000000);
    ("close_price", VFloat (Float.lit 15525 100))
  ].

Definition example_store : store :=
  <["di_prices_daily" := {[ "AAPL_2026-11-03" := example_price ]}]>
    {[ "pf_positions_active" := {[ "AAPL_20261101_093000" := example_position ]} ]}.

Definition example_sell (quantity : Z) : Transaction.t :=
  let price := Decimal.Mk false 15525%N (-2) in
  let total := Decimal.mul price (Decimal.of_int quantity) in
  Transaction.Mk "AAPL" TransactionType.SELL quantity price total
                 (Decimal.mul total PortfolioManager.fee_rate)
                 1793779200000000 1793750400000000 1793750400000000.

(** The price records hold their close as a number (or lack it), not
    as text: [Decimal(str(..))] of text is not part of the model. *)
Definition closes_are_numbers (st : store) : Prop :=
  ∀ id (record : doc) text,
    coll st "di_prices_daily" !! id = Some record →
    record !! "close_price" ≠ Some (VStr text).

Definition not_text (v : option pyval) : bool :=
  match v with Some (VStr _) => false | _ => true end.

Lemma closes_checked (st : store) :
  map_Forall (λ _ (record : doc), not_text (record !! "close_price") = true)
             (coll st "di_prices_daily") →
  closes_are_numbers st.
Proof.
  intros Hall id record text Hl E. specialize (Hall id record Hl).
  cbv beta in Hall. by rewrite E in Hall.
Qed.

Section Ledger.
Import PortfolioManager.

Lemma selected_position symbol (id : string) (stored : doc) :
  selected (position_filters symbol) None (id, stored) = true →
  stored !! "symbol" = Some (VStr symbol) ∧ stored !! "status" = Some (VStr "active").
Proof.
  unfold selected, position_filters. cbn [forallb snd].
  rewrite !andb_true_iff, !matches_eq_str. tauto.
Qed.

Lemma active_position_head st symbol (pos : doc) rest :
  query_documents st "pf_positions_active" (position_filters symbol) None None
    = pos :: rest →
  ∃ id stored,
    coll st "pf_positions_active" !! id = Some stored ∧
    pos = <["id" := VStr id]> stored ∧
    stored !! "symbol" = Some (VStr symbol) ∧
    stored !! "status" = Some (VStr "active").
Proof.
  intros H. apply query_documents_head in H as (id & stored & Hl & -> & Hsel).
  apply selected_position in Hsel. by exists id, stored.
Qed.

(** C9.  A sell of fewer shares than the selected active position
    holds leaves the position in the active partition with status
    active, its quantity lowered by exactly the sold amount, and its
    average cost (like every field other than quantity and updated_at)
    as it was; nothing is written to the history partition. *)
Theorem partial_sell_keeps_position
        (st : store) (clk : clock) (transaction : Transaction.t)
        (position : doc) (rest : list doc) (held : Z) :
  Transaction.transaction_type transaction = TransactionType.SELL →
  query_documents st "pf_positions_active"
                  (PortfolioManager.position_filters (Transaction.symbol transaction))
                  None None = position :: rest →
  position !! "quantity" = Some (VInt held) →
  Transaction.quantity transaction < held →
  let st' := PortfolioManager.update_positions st clk transaction in
  ∃ id after,
    position !! "id" = Some (VStr id) ∧
    coll st' "pf_positions_active" !! id = Some after ∧
    after !! "status" = Some (VStr "active") ∧
    after !! "quantity" = Some (VInt (held - Transaction.quantity transaction)) ∧
    after !! "average_cost" = position !! "average_cost" ∧
    (∀ k, k ≠ "quantity" → k ≠ "updated_at" → after !! k = position !! k) ∧
    coll st' "pf_positions_history" = coll st "pf_positions_history".
Proof.
  intros Hty Hq Hheld Hlt st'.
  destruct (active_position_head _ _ _ _ Hq) as (pid & stored & Hl & Hpos & Hsym & Hact).
  assert (position !! "id" = Some (VStr pid)) as Hid by (subst; by rewrite lookup_insert_eq).
  subst st'. unfold update_positions, update_positions_body.
  rewrite Hty, Hq, Hheld. cbn [as_int].
  destruct (Z.leb_spec held (Transaction.quantity transaction)) as [?|_]; [lia|].
  rewrite !lookup_insert_ne by done. rewrite Hid. cbn [as_str default from_option Datatypes.id].
  set (after := <["updated_at" := _]> _).
  assert (encodable after = true) as Henc.
  { subst after position. do 2 (apply encodable_insert; [done|]).
    exact (encodable_with_id st "pf_positions_active" pid stored Hl). }
  exists pid, after.
  rewrite (coll_update_document_hit _ _ _ after stored Hl), lookup_insert_eq; [|..|done].
  2:{ subst after position. do 3 apply cover_insert. apply cover_refl. }
  rewrite coll_update_document_ne by done. subst after.
  repeat split.
  - rewrite !lookup_insert_ne by done. subst position.
    by rewrite lookup_insert_ne.
  - rewrite lookup_insert_ne by done. by rewrite lookup_insert_eq.
  - by rewrite !lookup_insert_ne.
  - intros k ??. by rewrite !lookup_insert_ne.
Qed.

Lemma partial_sell_keeps_position_witness :
  ∃ pid after,
    coll (PortfolioManager.update_positions example_store example_clock (example_sell 3))
         "pf_positions_active" !! pid = Some after ∧
    after !! "quantity" = Some (VInt 7) ∧
    after !! "average_cost" = Some (VFloat (Float.lit 150 1)).
Proof.
  destruct (partial_sell_keeps_position
              example_store example_clock (example_sell 3)
              (with_id ("AAPL_20261101_093000", example_position)) [] 10)
    as (pid & after & _ & H1 & _ & H2 & H3 & _).
  - reflexivity.
  - compute_done.
  - compute_done.
  - reflexivity.
  - exists pid, after. split; [exact H1|]. split; [exact H2|].
    rewrite H3. compute_done.
Defined.


(** C2.  A sell of at least as many shares as the selected active
    position holds closes it: the record written to the history
    partition under the position's id has status closed, closed_at equal
    to the transaction's execution time and quantity 0 (its other fields
    are carried over), the active partition no longer holds the id, and
    a listing of the history partition shows exactly one record with
    that id while a listing of the active partition shows none. *)
Theorem full_sell_closes_position
        (st : store) (clk : clock) (transaction : Transaction.t)
        (position : doc) (rest : list doc) (held : Z) :
  Transaction.transaction_type transaction = TransactionType.SELL →
  query_documents st "pf_positions_active"
                  (PortfolioManager.position_filters (Transaction.symbol transaction))
                  None None = position :: rest →
  position !! "quantity" = Some (VInt held) →
  held ≤ Transaction.quantity transaction →
  let st' := PortfolioManager.update_positions st clk transaction in
  ∃ pid closed,
    position !! "id" = Some (VStr pid) ∧
    coll st' "pf_positions_history" !! pid = Some closed ∧
    closed !! "status" = Some (VStr "closed") ∧
    closed !! "closed_at" = Some (VTime (Transaction.executed_at transaction)) ∧
    closed !! "quantity" = Some (VInt 0) ∧
    (∀ k v, k ≠ "status" → k ≠ "closed_at" → k ≠ "quantity" →
            position !! k = Some v → closed !! k = Some v) ∧
    coll st' "pf_positions_active" !! pid = None ∧
    length (records_with_id st' "pf_positions_history" pid) = 1%nat ∧
    length (records_with_id st' "pf_positions_active" pid) = 0%nat.
Proof.
  intros Hty Hq Hheld Hle st'.
  destruct (active_position_head _ _ _ _ Hq) as (pid & stored & Hl & Hpos & Hsym & Hact).
  assert (position !! "id" = Some (VStr pid)) as Hid by (subst; by rewrite lookup_insert_eq).
  subst st'. unfold update_positions, update_positions_body.
  rewrite Hty, Hq, Hheld. cbn [as_int].
  destruct (Z.leb_spec held (Transaction.quantity transaction)) as [_|?]; [|lia].
  rewrite !lookup_insert_ne by done. rewrite Hid. cbn [as_str default from_option Datatypes.id].
  set (data := <["quantity" := _]> _).
  assert (encodable data = true) as Henc.
  { subst data position. do 3 (apply encodable_insert; [done|]).
    exact (encodable_with_id st "pf_positions_active" pid stored Hl). }
  set (closed := data ∪ default ∅ (coll st "pf_positions_history" !! pid)).
  assert (∀ c, coll (delete_document
                       (upsert_document st "pf_positions_history" pid data)
                       "pf_positions_active" pid) c !! pid
            = if decide (c = "pf_positions_active") then None
              else if decide (c = "pf_positions_history") then Some closed
              else coll st c !! pid) as Hc.
  { intros c. case_decide as E1.
    - subst c. by rewrite coll_delete_document, lookup_delete_eq.
    - rewrite coll_delete_document_ne by done. case_decide as E2.
      + subst c. by rewrite coll_upsert_document, lookup_insert_eq.
      + by rewrite coll_upsert_document_ne. }
  exists pid, closed. rewrite !records_with_id_length, !Hc. simpl.
  repeat split; try done.
  - apply lookup_union_Some_l. subst data.
    rewrite !lookup_insert_ne by done. by rewrite lookup_insert_eq.
  - apply lookup_union_Some_l. subst data.
    rewrite lookup_insert_ne by done. by rewrite lookup_insert_eq.
  - apply lookup_union_Some_l. subst data. by rewrite lookup_insert_eq.
  - intros k v ??? Hk. apply lookup_union_Some_l. subst data. by rewrite !lookup_insert_ne.
Qed.

Lemma full_sell_closes_position_witness :
  ∃ pid closed,
    coll (PortfolioManager.update_positions example_store example_clock (example_sell 10))
         "pf_positions_history" !! pid = Some closed ∧
    closed !! "status" = Some (VStr "closed") ∧
    closed !! "quantity" = Some (VInt 0) ∧
    coll (PortfolioManager.update_positions example_store example_clock (example_sell 10))
         "pf_positions_active" !! pid = None.
Proof.
  destruct (full_sell_closes_position
              example_store example_clock (example_sell 10)
              (with_id ("AAPL_20261101_093000", example_position)) [] 10)
    as (pid & closed & _ & H1 & H2 & _ & H3 & _ & H4 & _).
  - reflexivity.
  - compute_done.
  - compute_done.
  - compute_done.
  - exists pid, closed. repeat split; assumption.
Defined.

End Ledger.

(** ** Valuation pass *)
Section Valuation.
Import PortfolioManager.





End Valuation.






(** ** Signal generation *)
Section Signals.
Import StrategyEngine.

Definition symbol_filters (symbol : pyval) : list field_filter :=
  [("symbol", OpEq, symbol); ("status", OpEq, VStr "active")].




End Signals.


Definition quote_store : store :=
  {[ "di_prices_daily" :=
       {[ "AAPL_2026-11-03" :=
            (list_to_map [("symbol", VStr "AAPL"); ("date", VTime 1793664000000000);
                          ("close_price", VInt 100)] : doc) ]} ]}.

Definition buy_recommendation (confidence : pyval) (created_at : Z) : doc :=
  list_to_map [("symbol", VStr "AAPL"); ("recommendation", VStr "buy");
               ("confidence_score", confidence); ("model_version", VStr "v1");
               ("created_at", VTime created_at); ("updated_at", VTime created_at)].


(** ** Trade execution *)
Section Execution.
Import PortfolioManager.

(** [update_positions] writes to the two position partitions only. *)
Lemma update_positions_other st clk transaction c :
  c ≠ "pf_positions_active" → c ≠ "pf_positions_history" →
  coll (update_positions st clk transaction) c = coll st c.
Proof.
  intros Ha Hh. unfold update_positions, update_positions_body.
  split_goal; cbn [from_option id];
    rewrite ?coll_delete_document_ne, ?coll_update_document_ne,
            ?coll_upsert_document_ne by (first [assumption | by apply not_eq_sym]);
    reflexivity.
Qed.

(** The models' dicts carry their Decimal fields as they are
    ([.dict()] does not apply the json encoders), and the store takes
    none of them. *)
Lemma transaction_dict_refused (t : Transaction.t) :
  encodable (Transaction.dict t) = false.
Proof. apply (encodable_refused _ "price" (Transaction.price t)). vm_compute. reflexivity. Qed.

Lemma position_dict_refused (x : Position.t) :
  encodable (Position.dict x) = false.
Proof.
  apply (encodable_refused _ "average_cost" (Position.average_cost x)).
  vm_compute. reflexivity.
Qed.

Lemma trade_signal_dict_refused (x : TradeSignal.t) price :
  TradeSignal.price_limit x = Some price → encodable (TradeSignal.dict x) = false.
Proof.
  intros H. apply (encodable_refused _ "price_limit" price).
  destruct x. cbn in H. subst. vm_compute. reflexivity.
Qed.

(** The transaction type [execute_trade] derives from a signal type. *)
Definition side (signal_type : pyval) : TransactionType.t :=
  if decide (signal_type = VStr "buy") then TransactionType.BUY else TransactionType.SELL.

Lemma side_eq (signal_type : pyval) :
  match signal_type with
  | VStr "buy" => TransactionType.BUY
  | _ => TransactionType.SELL
  end = side signal_type.
Proof.
  unfold side. destruct (decide (signal_type = VStr "buy")) as [->|Hne]; [done|].
  destruct signal_type as [| | | |s|]; try done.
  destruct (decide (s = "buy")) as [->|Hs]; [done|].
  repeat (destruct s as [|[[] [] [] [] [] [] [] []] s]; try done).
Qed.

(** The transaction an accepted signal is turned into, and its id. *)
Definition transaction_of (clk : clock) (sym : string) (signal_type : pyval)
           (quantity : Z) (execution_price : Decimal.t) : Transaction.t :=
  let total_amount := Decimal.mul execution_price (Decimal.of_int quantity) in
  Transaction.Mk sym (side signal_type) quantity execution_price total_amount
                 (Decimal.mul total_amount fee_rate)
                 (now clk) (utcnow clk) (utcnow clk).

Definition transaction_id_of (clk : clock) (sym : string) (signal_type : pyval) : string :=
  (sym +:+ "_" +:+ TransactionType.value (side signal_type) +:+ "_"
       +:+ Datetime.strftime "" "" (now clk))%string.

(** What [execute_trade] does with a signal it accepts: the store does
    not take the transaction record, the ledger is updated all the
    same, and the transaction id is returned. *)
Lemma execute_trade_accepts st clk (signal : doc) sym signal_type quantity price
      execution_price :
  signal !! "symbol" = Some (VStr sym) →
  signal !! "signal_type" = Some signal_type →
  signal !! "quantity" = Some (VInt quantity) →
  get_current_price st (VStr sym) = Some price →
  Decimal.is_zero price = false →
  Py.decimal_of_str (default (VDec price) (signal !! "price_limit"))
    = Some execution_price →
  execute_trade st clk signal
  = (Some (transaction_id_of clk sym signal_type),
     update_positions st clk
                      (transaction_of clk sym signal_type quantity execution_price)).
Proof.
  intros Hs Hty Hq Hp Hz Hx. unfold execute_trade, execute_trade_body.
  rewrite Hs, Hty, Hq, Hp, Hz, Hx. cbn [as_int as_str from_option id].
  rewrite side_eq. by rewrite upsert_document_refused by apply transaction_dict_refused.
Qed.

(** Either [execute_trade] refuses the signal and writes nothing, or it
    accepted it as above. *)
Lemma execute_trade_cases st clk (signal : doc) :
  execute_trade st clk signal = (None, st) ∨
  ∃ sym signal_type quantity price execution_price,
    signal !! "symbol" = Some (VStr sym) ∧
    signal !! "signal_type" = Some signal_type ∧
    signal !! "quantity" = Some (VInt quantity) ∧
    get_current_price st (VStr sym) = Some price ∧
    Decimal.is_zero price = false ∧
    Py.decimal_of_str (default (VDec price) (signal !! "price_limit"))
      = Some execution_price.
Proof.
  unfold execute_trade, execute_trade_body.
  destruct (signal !! "symbol") as [symbol|]; [|by left].
  destruct (signal !! "signal_type") as [signal_type|]; [|by left].
  destruct (signal !! "quantity") as [quantity|]; [|by left].
  destruct (get_current_price st symbol) as [price|] eqn:Hp; [|by left].
  destruct (Decimal.is_zero price) eqn:Hz; [by left|].
  destruct (Py.decimal_of_str _) as [execution_price|] eqn:Hx; [|by left].
  destruct quantity as [|q| | | |]; try by left.
  destruct symbol as [| | | |sym|]; try by left.
  right. by exists sym, signal_type, q, price, execution_price.
Qed.

End Execution.

(** The signal of the counterexample: a limit order on a symbol that has
    no daily price record. *)
Definition limit_order : doc :=
  list_to_map [("symbol", VStr "MSFT"); ("signal_type", VStr "buy");
               ("quantity", VInt 5);
               ("price_limit", VFloat (Float.lit 4105 10))].

(** C3, as stated, fails: a signal that carries a price limit (410.5)
    is not executed when the symbol has no current market price; no
    transaction is returned and nothing is written. *)
Lemma limit_order_without_market_price :
  limit_order !! "price_limit" = Some (VFloat (Float.lit 4105 10)) ∧
  Py.decimal_of_str (VFloat (Float.lit 4105 10)) = Some (Decimal.Mk false 4105%N (-1)) ∧
  PortfolioManager.get_current_price example_store (VStr "MSFT") = None ∧
  PortfolioManager.execute_trade example_store example_clock limit_order
  = (None, example_store).
Proof. repeat split; compute_done. Qed.

(** C3, amended.  [execute_trade] returns no transaction (and writes
    nothing) whenever no current market price resolves for the signal's
    symbol (the price lookup gives None or zero), whether or not the
    signal carries a price limit; the price records are taken to hold
    their close as a number, not as text.  When a current price
    resolves, a signal with a str symbol, an int quantity and a signal
    type is executed at its price limit if it carries a numeric one and
    at the current price if it has no price_limit key: the id
    symbol_type_time is returned and the position ledger is updated
    with the transaction of that price, total = price * quantity and
    fees = total * 0.001.  The transaction record itself does not
    reach the store, which takes no Decimal: pf_transactions is as it
    was. *)
Theorem execute_trade_needs_market_price
        (st : store) (clk : clock) (signal : doc) :
  (closes_are_numbers st →
   (∀ symbol, signal !! "symbol" = Some symbol →
              match PortfolioManager.get_current_price st symbol with
              | Some price => Decimal.is_zero price = true
              | None => True
              end) →
   PortfolioManager.execute_trade st clk signal = (None, st)) ∧
  (∀ sym signal_type quantity price execution_price,
     signal !! "symbol" = Some (VStr sym) →
     signal !! "signal_type" = Some signal_type →
     signal !! "quantity" = Some (VInt quantity) →
     PortfolioManager.get_current_price st (VStr sym) = Some price →
     Decimal.is_zero price = false →
     (signal !! "price_limit" = None ∧ execution_price = price) ∨
     (∃ limit, signal !! "price_limit" = Some limit ∧
               Py.decimal_of_str limit = Some execution_price) →
     let transaction_type :=
       if decide (signal_type = VStr "buy")
       then TransactionType.BUY else TransactionType.SELL in
     let total_amount := Decimal.mul execution_price (Decimal.of_int quantity) in
     let transaction :=
       Transaction.Mk sym transaction_type quantity execution_price total_amount
                      (Decimal.mul total_amount PortfolioManager.fee_rate)
                      (now clk) (utcnow clk) (utcnow clk) in
     PortfolioManager.execute_trade st clk signal
     = (Some (sym +:+ "_" +:+ TransactionType.value transaction_type +:+ "_"
                  +:+ Datetime.strftime "" "" (now clk))%string,
        PortfolioManager.update_positions st clk transaction) ∧
     coll (PortfolioManager.execute_trade st clk signal).2 "pf_transactions"
     = coll st "pf_transactions").
Proof.
  split.
  - intros _ H. unfold PortfolioManager.execute_trade, PortfolioManager.execute_trade_body.
    destruct (signal !! "symbol") as [symbol|]; [|done].
    destruct (signal !! "signal_type"); [|done].
    destruct (signal !! "quantity"); [|done].
    specialize (H symbol eq_refl).
    destruct (PortfolioManager.get_current_price st symbol) as [price|]; [|done].
    by rewrite H.
  - intros sym signal_type quantity price execution_price Hs Hty Hq Hp Hz Hlim.
    assert (Py.decimal_of_str (default (VDec price) (signal !! "price_limit"))
            = Some execution_price) as Hx.
    { destruct Hlim as [[-> ->]|(limit & -> & Hl)]; done. }
    cbv zeta.
    rewrite (execute_trade_accepts _ _ _ _ _ _ _ _ Hs Hty Hq Hp Hz Hx).
    split; [done|]. cbn [snd]. by apply update_positions_other.
Qed.

Lemma execute_trade_needs_market_price_witness :
  PortfolioManager.execute_trade example_store example_clock limit_order
  = (None, example_store) ∧
  (PortfolioManager.execute_trade
     example_store example_clock (<["symbol" := VStr "AAPL"]> limit_order)).1
  = Some "AAPL_buy_20261104_080000".
Proof.
  split.
  - refine (proj1 (execute_trade_needs_market_price
                     example_store example_clock limit_order) _ _).
    + apply closes_checked. compute_done.
    + intros symbol Hs.
      assert (limit_order !! "symbol" = Some (VStr "MSFT")) as E by compute_done.
      rewrite E in Hs. injection Hs as <-.
      assert (PortfolioManager.get_current_price example_store (VStr "MSFT") = None)
        as -> by compute_done.
      exact I.
  - refine (f_equal fst
              (proj1 (proj2 (execute_trade_needs_market_price
                               example_store example_clock
                               (<["symbol" := VStr "AAPL"]> limit_order))
                            "AAPL" (VStr "buy") 5 (Decimal.Mk false 15525%N (-2))
                            (Decimal.Mk false 4105%N (-1)) _ _ _ _ _ _))).
    1-5: compute_done.
    right. exists (VFloat (Float.lit 4105 10)). split; compute_done.
Defined.

(** ** Buy filters and per-symbol deduplication *)

#[global] Instance recommendation_type_eq_dec : EqDecision RecommendationType.t.
Proof. solve_decision. Defined.

#[global] Instance trade_signal_eq_dec : EqDecision TradeSignal.t.
Proof. solve_decision. Defined.

(** A ledger that holds an active AAPL position of 7 shares whose
    market value has not been populated yet. *)
Definition held_position : doc :=
  list_to_map [
    ("symbol", VStr "AAPL"); ("quantity", VInt 7);
    ("average_cost", VFloat (Float.lit 100 1));
    ("current_price", VNone); ("market_value", VNone); ("unrealized_pnl", VNone);
    ("status", VStr "active"); ("opened_at", VTime 1793779200000000);
    ("closed_at", VNone);
    ("created_at", VTime 1793750400000000); ("updated_at", VTime 1793750400000000)
  ].

Definition held_store : store :=
  <["pf_positions_active" := {[ "AAPL_20261104_080000" := held_position ]}]> quote_store.

(** C5, evaluated where the code departs from it: the symbol has an
    active position (market_value still None), [get_position_value]
    reports 0 for it, the buy filters pass and a buy recommendation
    with confidence 90 yields a signal. *)
Lemma buy_signal_despite_active_position :
  let recommendation := buy_recommendation (VFloat (Float.lit 90 1)) 1793750000000000 in
  length (query_documents held_store "pf_positions_active"
                          (symbol_filters (VStr "AAPL")) None None) = 1%nat ∧
  Forall (λ position, position !! "market_value" = Some VNone)
         (query_documents held_store "pf_positions_active"
                          (symbol_filters (VStr "AAPL")) None None) ∧
  RiskManager.get_position_value held_store (VStr "AAPL") = Decimal.of_int 0 ∧
  StrategyEngine.apply_buy_filters held_store recommendation = true ∧
  is_Some (StrategyEngine.generate_trade_signal held_store example_clock recommendation).
Proof. repeat split; compute_done. Qed.

Section Deduplication.
Import StrategyEngine.

(** The creation time a recommendation carries. *)
Definition created_at (r : doc) : Z :=
  match r !! "created_at" with Some (VTime t) => t | _ => 0 end.

Definition timed (e : string * doc) : Prop :=
  ∃ t, e.2 !! "created_at" = Some (VTime t).

Definition older_or_same (a b : string * doc) : Prop :=
  created_at a.2 ≤ created_at b.2.

#[local] Instance older_or_same_trans : Transitive older_or_same.
Proof. unfold older_or_same. intros a b c. lia. Qed.

Lemma entry_leb_true x y :
  timed x → timed y →
  entry_leb (Some "created_at") x y = true → older_or_same x y.
Proof.
  intros [tx Hx] [ty Hy]. unfold entry_leb, older_or_same, created_at.
  rewrite Hx, Hy. cbn [from_option id]. rewrite val_compare_time.
  destruct (Z.compare_spec tx ty); intros; first [lia | done].
Qed.

Lemma entry_leb_false x y :
  timed x → timed y →
  entry_leb (Some "created_at") x y = false → older_or_same y x.
Proof.
  intros [tx Hx] [ty Hy]. unfold entry_leb, older_or_same, created_at.
  rewrite Hx, Hy. cbn [from_option id]. rewrite val_compare_time.
  destruct (Z.compare_spec tx ty); intros; first [lia | done].
Qed.

Lemma HdRel_insert_sorted leb (R : relation (string * doc)) y x l :
  R y x → HdRel R y l → HdRel R y (insert_sorted leb x l).
Proof.
  intros Hyx Hl. destruct l as [|z l]; cbn [insert_sorted]; [by constructor|].
  destruct (leb x z); constructor; [done|]. by inversion Hl.
Qed.

Lemma insert_sorted_Sorted x l :
  timed x → Forall timed l →
  Sorted older_or_same l →
  Sorted older_or_same (insert_sorted (entry_leb (Some "created_at")) x l).
Proof.
  intros Hx Hl Hs. induction l as [|y l IH]; cbn [insert_sorted].
  - repeat constructor.
  - apply Forall_cons in Hl as [Hy Hl].
    destruct (entry_leb (Some "created_at") x y) eqn:E.
    + constructor; [done|]. constructor. by apply entry_leb_true.
    + inversion Hs; subst. constructor; [by apply IH|].
      apply HdRel_insert_sorted; [by apply entry_leb_false|done].
Qed.

Lemma sort_Sorted l :
  Forall timed l → Sorted older_or_same (sort (entry_leb (Some "created_at")) l).
Proof.
  induction l as [|x l IH]; intros H; [constructor|].
  change (sort ?leb (x :: l)) with (insert_sorted leb x (sort leb l)).
  apply Forall_cons in H as [Hx Hl]. apply insert_sorted_Sorted; [done| |by apply IH].
  by rewrite sort_perm.
Qed.

Lemma matches_ge_time f t (d : doc) :
  matches (f, OpGe, VTime t) d = true ↔ ∃ t', d !! f = Some (VTime t') ∧ t ≤ t'.
Proof.
  unfold matches. split.
  - destruct (d !! f) as [x|]; [|done].
    destruct x; try done. rewrite val_compare_time. cbn [rank Z.eqb andb].
    destruct (Z.compare_spec t0 t); try done; intros _; exists t0; split; (done || lia).
  - intros (t' & -> & Hle). rewrite val_compare_time. cbn [rank Z.eqb andb].
    destruct (Z.compare_spec t' t); (done || lia).
Qed.

Lemma created_at_with_id e : created_at (with_id e) = created_at e.2.
Proof. unfold created_at, with_id. by rewrite lookup_insert_ne. Qed.

(** The window: recommendations of the trailing 24 hours, oldest first. *)
Lemma window_in_range st clk (r : doc) :
  r ∈ get_recent_ml_recommendations st clk →
  ∃ t, r !! "created_at" = Some (VTime t) ∧ now clk - Datetime.hours 24 ≤ t.
Proof.
  intros H. apply query_documents_elem in H as (pid & stored & _ & -> & Hsel).
  unfold selected in Hsel. cbn [forallb snd] in Hsel.
  rewrite !andb_true_iff in Hsel. destruct Hsel as [[Hm _] _].
  apply matches_ge_time in Hm as (t & Ht & Hle). exists t.
  by rewrite lookup_insert_ne.
Qed.

Lemma window_sorted st clk :
  StronglySorted (λ a b, created_at a ≤ created_at b)
                 (get_recent_ml_recommendations st clk).
Proof.
  unfold get_recent_ml_recommendations. rewrite query_documents_unlimited.
  apply (StronglySorted_fmap _ older_or_same).
  { intros x y. by rewrite !created_at_with_id. }
  apply Sorted_StronglySorted; [apply _|]. apply sort_Sorted.
  apply Forall_forall. intros e He. apply elem_of_selection in He as [_ Hsel].
  unfold selected in Hsel. cbn [forallb] in Hsel.
  rewrite !andb_true_iff in Hsel. destruct Hsel as [[Hm _] _].
  apply matches_ge_time in Hm as (t & Ht & _). by exists t.
Qed.

(** Signal generation reads the active positions and the daily prices. *)
Definition agree (st st' : store) : Prop :=
  coll st "pf_positions_active" = coll st' "pf_positions_active" ∧
  coll st "di_prices_daily" = coll st' "di_prices_daily".

Lemma generate_trade_signal_ext st st' clk r :
  agree st st' → generate_trade_signal st clk r = generate_trade_signal st' clk r.
Proof.
  intros [Ha Hp].
  unfold generate_trade_signal, get_current_price, apply_buy_filters,
    apply_buy_filters_body, apply_sell_filters,
    RiskManager.calculate_position_size, RiskManager.get_portfolio_value,
    RiskManager.get_position_value, RiskManager.check_portfolio_risk_limits.
  repeat first
    [ rewrite (query_documents_ext st st' "pf_positions_active") by done
    | rewrite (query_documents_ext st st' "di_prices_daily") by done
    | (case_match; try done) ].
Qed.

Lemma generate_trade_signal_symbol st clk (r : doc) signal :
  generate_trade_signal st clk r = Some signal →
  r !! "symbol" = Some (VStr (TradeSignal.symbol signal)).
Proof.
  unfold generate_trade_signal. intros H.
  repeat (case_match; try done); simplify_eq; cbn [TradeSignal.symbol].
  all: match goal with H : as_str ?v = Some _ |- _ =>
         destruct v; cbn [as_str] in H; by simplify_eq
       end.
Qed.


Lemma agree_upsert_signals st st' pid (data : doc) :
  agree st st' → agree st (upsert_document st' "se_trade_signals" pid data).
Proof.
  intros [Ha Hp]. split; by rewrite coll_upsert_document_ne.
Qed.

(** The loop, started with [signals] collected and their symbols in
    [processed]: it appends one signal per new symbol, each generated
    from the first recommendation in processing order that passes. *)
Lemma process_loop_spec st clk (recs : list doc) :
  ∀ st_cur signals processed,
    agree st st_cur →
    Forall (λ r, is_Some (r !! "symbol")) recs →
    ∃ new st',
      process_loop st_cur clk recs signals processed = (Some (signals ++ new), st') ∧
      NoDup (TradeSignal.symbol <$> new) ∧
      (∀ s, s ∈ new →
         (TradeSignal.symbol s ∉ processed) ∧
         ∃ r, r ∈ recs ∧ generate_trade_signal st clk r = Some s) ∧
      (∀ r s, r ∈ recs → generate_trade_signal st clk r = Some s →
         TradeSignal.symbol s ∈ processed ∨
         ∃ la r' lb s',
           recs = la ++ r' :: lb ∧ r ∈ r' :: lb ∧
           generate_trade_signal st clk r' = Some s' ∧
           s' ∈ new ∧ TradeSignal.symbol s' = TradeSignal.symbol s).
Proof.
  induction recs as [|r recs IH]; intros st_cur signals processed Hag Hsym.
  { exists [], st_cur. cbn [process_loop]. rewrite app_nil_r.
    split; [done|]. split; [constructor|].
    split; intros; exfalso; eapply not_elem_of_nil; eauto. }
  apply Forall_cons in Hsym as [[symbol Hr] Hsym].
  cbn [process_loop]. rewrite Hr.
  rewrite <- (generate_trade_signal_ext st st_cur clk r Hag).
  (* the three ways an iteration can go *)
  assert (∀ new,
            NoDup (TradeSignal.symbol <$> new) →
            (∀ s, s ∈ new → (TradeSignal.symbol s ∉ processed) ∧
                            ∃ r0, r0 ∈ recs ∧ generate_trade_signal st clk r0 = Some s) →
            (∀ r0 s, r0 ∈ recs → generate_trade_signal st clk r0 = Some s →
               TradeSignal.symbol s ∈ processed ∨
               ∃ la r' lb s', recs = la ++ r' :: lb ∧ r0 ∈ r' :: lb ∧
                 generate_trade_signal st clk r' = Some s' ∧
                 s' ∈ new ∧ TradeSignal.symbol s' = TradeSignal.symbol s) →
            (∀ s, generate_trade_signal st clk r = Some s →
                  TradeSignal.symbol s ∈ processed) →
            NoDup (TradeSignal.symbol <$> new) ∧
            (∀ s, s ∈ new → (TradeSignal.symbol s ∉ processed) ∧
                            ∃ r0, r0 ∈ r :: recs ∧ generate_trade_signal st clk r0 = Some s) ∧
            (∀ r0 s, r0 ∈ r :: recs → generate_trade_signal st clk r0 = Some s →
               TradeSignal.symbol s ∈ processed ∨
               ∃ la r' lb s', r :: recs = la ++ r' :: lb ∧ r0 ∈ r' :: lb ∧
                 generate_trade_signal st clk r' = Some s' ∧
                 s' ∈ new ∧ TradeSignal.symbol s' = TradeSignal.symbol s)) as Hskip.
  { intros new Hnd H1 H2 Hr0. split; [done|]. split.
    - intros s Hs. destruct (H1 s Hs) as (? & r0 & ? & ?).
      split; [done|]. exists r0. split; [by right|done].
    - intros r0 s Hin Hg. apply elem_of_cons in Hin as [->|Hin]; [left; by apply Hr0|].
      destruct (H2 r0 s Hin Hg) as [?|(la & r' & lb & s' & -> & ? & ? & ? & ?)];
        [by left|right].
      by exists (r :: la), r', lb, s'. }
  destruct (match symbol with
            | VStr s => bool_decide (s ∈ processed)
            | _ => false
            end) eqn:Hseen.
  { (* skipped: the symbol already has a signal *)
    destruct (IH st_cur signals processed Hag Hsym) as (new & st' & -> & Hnd & H1 & H2).
    exists new, st'. split; [done|]. apply (Hskip new Hnd H1 H2).
    intros s Hg. apply generate_trade_signal_symbol in Hg.
    rewrite Hr in Hg. injection Hg as ->. by apply bool_decide_eq_true in Hseen. }
  destruct (generate_trade_signal st clk r) as [signal|] eqn:Hgen; cycle 1.
  { (* no signal: the symbol stays open for older recommendations *)
    destruct (IH st_cur signals processed Hag Hsym) as (new & st' & -> & Hnd & H1 & H2).
    exists new, st'. split; [done|]. by apply (Hskip new Hnd H1 H2). }
  (* a signal: recorded, stored, and its symbol closed *)
  pose proof (generate_trade_signal_symbol _ _ _ _ Hgen) as Hs.
  rewrite Hr in Hs. injection Hs as ->.
  apply bool_decide_eq_false in Hseen.
  set (sym := TradeSignal.symbol signal) in *.
  destruct (IH (upsert_document st_cur "se_trade_signals"
                  (sym +:+ "_" +:+ Datetime.strftime "-" "-" (now clk))%string
                  (TradeSignal.dict signal))
               (signals ++ [signal]) ({[sym]} ∪ processed))
    as (new & st' & -> & Hnd & H1 & H2); [by apply agree_upsert_signals|done|].
  exists (signal :: new), st'. split; [by rewrite <- app_assoc|].
  split; [|split].
  - rewrite fmap_cons. apply NoDup_cons. split; [|done].
    intros Hin. apply list_elem_of_fmap in Hin as (s & Heq & Hin).
    destruct (H1 s Hin) as [Hn _]. apply Hn. rewrite <- Heq. set_solver.
  - intros s Hin. apply elem_of_cons in Hin as [->|Hin].
    + split; [done|]. exists r. split; [left|done].
    + destruct (H1 s Hin) as (Hn & r0 & ? & ?). split; [set_solver|].
      exists r0. split; [by right|done].
  - intros r0 s Hin Hg.
    assert (TradeSignal.symbol s = sym →
            ∃ la r' lb s', r :: recs = la ++ r' :: lb ∧ r0 ∈ r' :: lb ∧
              generate_trade_signal st clk r' = Some s' ∧
              s' ∈ signal :: new ∧ TradeSignal.symbol s' = TradeSignal.symbol s) as Hhere.
    { intros Heq. exists [], r, recs, signal. repeat split; try done. left. }
    apply elem_of_cons in Hin as [->|Hin].
    { right. apply Hhere. rewrite Hgen in Hg. by injection Hg as <-. }
    destruct (H2 r0 s Hin Hg) as [Hp|(la & r' & lb & s' & -> & ? & ? & ? & ?)].
    + apply elem_of_union in Hp as [Hp|Hp]; [|by left].
      right. apply Hhere. by apply elem_of_singleton in Hp.
    + right. exists (r :: la), r', lb, s'. repeat split; try done. by right.
Qed.

End Deduplication.

(** C4, amended.  In one run of [process_ml_recommendations] over the
    recommendations of the trailing 24 hours (all carrying a symbol):
    at most one signal is produced per symbol; every signal is the one
    generated from a recommendation of the window; and whenever a
    recommendation of the window passes the filters (would generate a
    signal), the run's signal for its symbol comes from a passing
    recommendation that is at least as recent.  So a recommendation is
    skipped once a more recent one of its symbol has produced a signal;
    a more recent one that produced none does not shadow it. *)
Theorem first_passing_recommendation_wins (st : store) (clk : clock) :
  let window := StrategyEngine.get_recent_ml_recommendations st clk in
  let signals := (StrategyEngine.process_ml_recommendations st clk).1 in
  Forall (λ r : doc, is_Some (r !! "symbol")) window →
  Forall (λ r : doc, ∃ t, r !! "created_at" = Some (VTime t) ∧
                          now clk - Datetime.hours 24 ≤ t) window ∧
  NoDup (TradeSignal.symbol <$> signals) ∧
  (∀ signal, signal ∈ signals →
     ∃ r, r ∈ window ∧
          StrategyEngine.generate_trade_signal st clk r = Some signal) ∧
  (∀ r signal,
     r ∈ window →
     StrategyEngine.generate_trade_signal st clk r = Some signal →
     ∃ r' signal',
       r' ∈ window ∧
       StrategyEngine.generate_trade_signal st clk r' = Some signal' ∧
       signal' ∈ signals ∧
       TradeSignal.symbol signal' = TradeSignal.symbol signal ∧
       created_at r ≤ created_at r').
Proof.
  intros window signals Hsym.
  split. { apply Forall_forall. intros r Hr. by apply window_in_range in Hr. }
  assert (∀ r : doc, r ∈ rev window ↔ r ∈ window) as Hrev.
  { intros r. by rewrite !list_elem_of_In, <- in_rev. }
  destruct (process_loop_spec st clk (rev window) st [] ∅)
    as (new & st' & Hloop & Hnd & H1 & H2).
  { done. }
  { apply Forall_forall. intros r Hr. rewrite Forall_forall in Hsym.
    apply Hsym. by apply Hrev. }
  assert (signals = new ∨ (window = [] ∧ signals = [])) as Hsig.
  { subst signals. unfold StrategyEngine.process_ml_recommendations. fold window.
    destruct window; [by right|left]. by rewrite Hloop. }
  assert (window = [] → new = []) as Hnil.
  { intros E. rewrite E in Hloop. cbn in Hloop. injection Hloop as Hl _.
    by destruct new. }
  assert (signals = new) as ->.
  { destruct Hsig as [?|[E ->]]; [done|]. by rewrite Hnil. }
  split; [done|]. split.
  - intros s Hs. destruct (H1 s Hs) as (_ & r & Hr & Hg). exists r.
    split; [by apply Hrev|done].
  - intros r s Hr Hg.
    destruct (H2 r s) as [Hin|(la & r' & lb & s' & Hdec & Hin & Hg' & Hs' & Heq)];
      [by apply Hrev|done|set_solver|].
    exists r', s'.
    assert (window = rev lb ++ r' :: rev la) as Hw.
    { rewrite <- (rev_involutive window), Hdec, rev_app_distr. cbn [rev].
      by rewrite <- app_assoc. }
    split; [rewrite Hw; set_solver|]. repeat (split; [done|]).
    apply elem_of_cons in Hin as [->|Hin]; [lia|].
    pose proof (window_sorted st clk) as Hsorted. fold window in Hsorted.
    rewrite Hw in Hsorted.
    apply (StronglySorted_app_1_elem_of _ _ _ r r') in Hsorted; [done| |left].
    by rewrite list_elem_of_In, <- in_rev, <- list_elem_of_In.
Qed.

(** Two recommendations for AAPL within the window: a buy with
    confidence 90 and, some hours later, a hold. *)
Definition hold_recommendation (created_at : Z) : doc :=
  list_to_map [("symbol", VStr "AAPL"); ("recommendation", VStr "hold");
               ("confidence_score", VFloat (Float.lit 55 1));
               ("model_version", VStr "v1");
               ("created_at", VTime created_at); ("updated_at", VTime created_at)].

Definition advice_store : store :=
  <["ml_recommendations_log" :=
      <["AAPL_0003" := hold_recommendation 1793770000000000]>
        {[ "AAPL_0002" :=
             buy_recommendation (VFloat (Float.lit 90 1)) 1793750000000000 ]}]>
    quote_store.

(** C4, as stated, fails: the most recent recommendation for AAPL (the
    hold) is encountered first and yields no signal, and the older buy
    recommendation is then consumed instead of being skipped. *)
Lemma older_recommendation_is_consumed :
  let older := with_id ("AAPL_0002",
                        buy_recommendation (VFloat (Float.lit 90 1)) 1793750000000000) in
  let newer := with_id ("AAPL_0003", hold_recommendation 1793770000000000) in
  StrategyEngine.get_recent_ml_recommendations advice_store example_clock
    = [older; newer] ∧
  older !! "symbol" = newer !! "symbol" ∧
  created_at older < created_at newer ∧
  StrategyEngine.generate_trade_signal advice_store example_clock newer = None ∧
  is_Some (StrategyEngine.generate_trade_signal advice_store example_clock older) ∧
  (StrategyEngine.process_ml_recommendations advice_store example_clock).1
    = option_list (StrategyEngine.generate_trade_signal advice_store example_clock older).
Proof. repeat split; compute_done. Qed.

Lemma first_passing_recommendation_wins_witness :
  NoDup (TradeSignal.symbol
           <$> (StrategyEngine.process_ml_recommendations advice_store example_clock).1).
Proof.
  refine (proj1 (proj2 (first_passing_recommendation_wins advice_store example_clock _))).
  compute_done.
Defined.

(** ** Average cost of a run of buys *)

Section AverageCost.
Import PortfolioManager.


Lemma selected_position_iff sym (e : string * doc) :
  selected (position_filters sym) None e = true ↔
  e.2 !! "symbol" = Some (VStr sym) ∧ e.2 !! "status" = Some (VStr "active").
Proof.
  unfold selected, position_filters. cbn [forallb].
  by rewrite !andb_true_r, andb_true_iff, !matches_eq_str.
Qed.



Lemma no_position_query st sym :
  query_documents st "pf_positions_active" (position_filters sym) None None = [] →
  ∀ pid (d : doc),
    coll st "pf_positions_active" !! pid = Some d →
    d !! "symbol" = Some (VStr sym) →
    d !! "status" = Some (VStr "active") → False.
Proof.
  rewrite query_documents_unlimited. intros H pid d Hl Hs Ha.
  apply fmap_nil_inv in H.
  assert ((pid, d) ∈ sort (entry_leb None)
                          (selection st "pf_positions_active" (position_filters sym) None))
    as Hin.
  { rewrite sort_perm, elem_of_selection, selected_position_iff. done. }
  rewrite H in Hin. by apply elem_of_nil in Hin.
Qed.

(** A buy on a symbol without an active position leaves the ledger as
    it is: the Position built for it holds its average cost as a
    Decimal, and the store takes none. *)
Lemma first_buy_opens_nothing st clk (transaction : Transaction.t) :
  Transaction.transaction_type transaction = TransactionType.BUY →
  query_documents st "pf_positions_active"
                  (position_filters (Transaction.symbol transaction)) None None = [] →
  update_positions st clk transaction = st.
Proof.
  intros Hty Hq. unfold update_positions, update_positions_body.
  rewrite Hty, Hq. cbn [from_option id].
  apply upsert_document_refused, position_dict_refused.
Qed.






Definition total_cost (l : list (Z * Decimal.t)) : Q :=
  foldr (λ x acc, inject_Z x.1 * Decimal.value x.2 + acc)%Q 0%Q l.














End AverageCost.







(** * Further properties of the modelled code *)

(** ** shared/firestore_client.py: the remaining methods *)

(** [doc_ref.set(data)] inside the wrapper's try: the document is
    replaced; when the client raises on the data nothing is written. *)
Definition create_document (st : store) (c id : string) (data : doc) : store :=
  if encodable data then <[c := <[id := data]> (coll st c)]> st else st.

(** [get_document]: [None] when the document does not exist. *)
Definition get_document (st : store) (c id : string) : option doc :=
  coll st c !! id.

Section StoreOperations.

Lemma elem_of_query_documents st c fs ob (d : doc) :
  d ∈ query_documents st c fs ob None ↔
  ∃ id stored, coll st c !! id = Some stored ∧ d = with_id (id, stored) ∧
               selected fs ob (id, stored) = true.
Proof.
  rewrite query_documents_unlimited, list_elem_of_fmap. split.
  - intros ([id stored] & -> & He). rewrite sort_perm in He.
    apply elem_of_selection in He as [Hl Hs]. by exists id, stored.
  - intros (id & stored & Hl & -> & Hs). exists (id, stored).
    split; [done|]. rewrite sort_perm. by apply elem_of_selection.
Qed.

Lemma selected_spec fs ob (e : string * doc) :
  selected fs ob e = true ↔
  Forall (λ f, matches f e.2 = true) fs ∧
  match ob with
  | Some f => is_Some (e.2 !! f)
  | None => True
  end.
Proof.
  unfold selected. rewrite andb_true_iff, forallb_forall, Forall_forall.
  split; intros [Hf Ho]; (split; [intros f Hin; apply Hf;
    first [by apply list_elem_of_In | by apply list_elem_of_In in Hin]|]).
  - destruct ob as [f|]; [|done]. by destruct (e.2 !! f).
  - destruct ob as [f|]; [|done]. by destruct Ho as [x ->].
Qed.

Lemma query_documents_take st c fs ob n :
  query_documents st c fs ob (Some (S n))
  = take (S n) (query_documents st c fs ob None).
Proof. unfold query_documents. by rewrite fmap_take. Qed.

Lemma NoDup_query_documents st c fs ob lim :
  NoDup (query_documents st c fs ob lim).
Proof.
  assert (NoDup (query_documents st c fs ob None)) as H.
  { rewrite query_documents_unlimited.
    apply (NoDup_fmap_1 (λ d : doc, d !! "id")). rewrite <- list_fmap_compose.
    assert (((λ d : doc, d !! "id") ∘ with_id) <$> sort (entry_leb ob) (selection st c fs ob)
            = (λ id, Some (VStr id)) <$> (sort (entry_leb ob) (selection st c fs ob)).*1)
      as ->.
    { rewrite <- list_fmap_compose. apply list_fmap_ext. intros i e _.
      unfold compose, with_id. by rewrite lookup_insert_eq. }
    apply NoDup_fmap_2; [by intros x y [= ->]|].
    rewrite sort_perm. apply NoDup_selection. }
  destruct lim as [[|n]|]; [done| |done].
  rewrite query_documents_take. apply (sublist_NoDup _ _ H), sublist_take.
Qed.

Lemma query_documents_nil st c fs ob lim :
  (∀ id stored, coll st c !! id = Some stored → selected fs ob (id, stored) = false) →
  query_documents st c fs ob lim = [].
Proof.
  intros H. destruct (query_documents st c fs ob lim) as [|d rest] eqn:E; [done|].
  apply query_documents_head in E as (id & stored & Hl & _ & Hs).
  by rewrite (H id stored Hl) in Hs.
Qed.

(** X1.  For an [order_by] that is absent or names a field (the
    wrapper's [if order_by:] takes the empty text for no ordering, so
    the empty text is left out), [query_documents] without a limit
    returns exactly the stored documents of the collection that pass
    every filter (and carry the [order_by] field when one is given),
    each with its document id put in its "id" field; with or without a
    limit no document is returned twice. *)
Theorem query_documents_exact st c filters order_by (d : doc) :
  order_by ≠ Some ""%string →
  (d ∈ query_documents st c filters order_by None ↔
   ∃ id stored,
     get_document st c id = Some stored ∧
     d = <["id" := VStr id]> stored ∧
     Forall (λ f, matches f stored = true) filters ∧
     match order_by with
     | Some f => is_Some (stored !! f)
     | None => True
     end) ∧
  ∀ limit, NoDup (query_documents st c filters order_by limit).
Proof.
  intros _. split.
  - rewrite elem_of_query_documents. unfold get_document, with_id.
    split; intros (id & stored & Hl & -> & Hs); exists id, stored;
      (split; [done|]); [apply selected_spec in Hs|]; [done|].
    split; [done|]. by apply selected_spec.
  - intros limit. apply NoDup_query_documents.
Qed.

(** X2.  [upsert_document] merges data that holds no Decimal:
    afterwards the document holds every field of the data written and
    keeps each field it had that the data does not mention.  Data that
    holds a Decimal in some field is refused and the store is left
    exactly as it was.  In both cases no other document of any
    collection changes, and on an id that does not exist yet the call
    does what [create_document] does. *)
Theorem upsert_document_merges st c id (data : doc) :
  let st' := upsert_document st c id data in
  ((∀ k x, data !! k ≠ Some (VDec x)) →
   ∃ merged,
     get_document st' c id = Some merged ∧
     ∀ k, merged !! k =
          match data !! k with
          | Some v => Some v
          | None => get_document st c id ≫= (.!! k)
          end) ∧
  ((∃ k x, data !! k = Some (VDec x)) → st' = st) ∧
  (∀ c' id', (c', id') ≠ (c, id) → get_document st' c' id' = get_document st c' id') ∧
  (get_document st c id = None → st' = create_document st c id data).
Proof.
  intros st'. subst st'. split; [|split; [|split]].
  - intros Hdec. apply encodable_no_decimal in Hdec. unfold get_document.
    eexists. rewrite (coll_upsert_document _ _ _ _ Hdec), lookup_insert_eq.
    split; [reflexivity|].
    intros k. rewrite lookup_union.
    destruct (data !! k) as [v|] eqn:Ed; destruct (coll st c !! id) as [old|];
      cbn; rewrite ?lookup_empty; try reflexivity.
    + by destruct (old !! k).
    + by destruct (old !! k).
  - intros (k & x & Hk). apply upsert_document_refused.
    by apply (encodable_refused _ k x).
  - intros c' id' Hne. unfold get_document.
    destruct (decide (c = c')) as [<-|Hc]; [|by rewrite coll_upsert_document_ne].
    destruct (encodable data) eqn:Ee;
      [|by rewrite (upsert_document_refused _ _ _ _ Ee)].
    rewrite (coll_upsert_document _ _ _ _ Ee).
    rewrite lookup_insert_ne; [reflexivity|]. congruence.
  - unfold get_document, upsert_document, create_document. intros ->.
    cbn [from_option Datatypes.id]. by rewrite (right_id ∅ (∪)).
Qed.

Lemma dom_coll_update_document st c id (data : doc) c' :
  dom (coll (update_document st c id data) c') = dom (coll st c').
Proof.
  destruct (decide (c = c')) as [<-|Hc]; [|by rewrite coll_update_document_ne].
  unfold update_document. destruct (coll st c !! id) as [old|] eqn:E; [|done].
  destruct (encodable data) eqn:Ee; [|done].
  rewrite coll_insert_eq, dom_insert_L.
  2:{ apply clean_insert; [apply coll_clean|].
      apply encodable_union; [done|]. by apply (coll_encodable st c id). }
  apply (anti_symm (⊆)); [|apply union_subseteq_r].
  apply union_subseteq. split; [|done].
  apply singleton_subseteq_l, elem_of_dom. by rewrite E.
Qed.

(** X3.  [update_document] never creates a document: on a missing id the
    store is left exactly as it was, and in every case each collection
    holds the same document ids afterwards as before. *)
Theorem update_document_creates_nothing st c id (data : doc) :
  update_document st c id data
  = match get_document st c id with
    | None => st
    | Some _ => upsert_document st c id data
    end ∧
  ∀ c', dom (coll (update_document st c id data) c') = dom (coll st c').
Proof.
  split; [|intros c'; apply dom_coll_update_document].
  unfold get_document, update_document, upsert_document.
  destruct (coll st c !! id); [|done]. by destruct (encodable data).
Qed.

(** X4.  [delete_document] removes the document and nothing else: no
    query of the collection returns its id any more, every other
    document is untouched, and deleting again changes nothing. *)
Theorem delete_document_removes st c id :
  let st' := delete_document st c id in
  get_document st' c id = None ∧
  (∀ filters order_by limit (d : doc),
     d ∈ query_documents st' c filters order_by limit → d !! "id" ≠ Some (VStr id)) ∧
  (∀ c' id', (c', id') ≠ (c, id) → get_document st' c' id' = get_document st c' id') ∧
  delete_document st' c id = st'.
Proof.
  intros st'. subst st'. unfold get_document.
  split; [by rewrite coll_delete_document, lookup_delete_eq|]. split; [|split].
  - intros fs ob lim d Hd.
    apply query_documents_elem in Hd as (id' & stored & Hl & -> & _).
    rewrite coll_delete_document in Hl. rewrite lookup_insert_eq. intros [= ->].
    by rewrite lookup_delete_eq in Hl.
  - intros c' id' Hne.
    destruct (decide (c = c')) as [<-|Hc]; [|by rewrite coll_delete_document_ne].
    rewrite coll_delete_document. rewrite lookup_delete_ne; [reflexivity|]. congruence.
  - unfold delete_document at 1. rewrite coll_delete_document.
    unfold delete_document. rewrite insert_insert_eq. f_equal.
    apply map_eq. intros k. destruct (decide (id = k)) as [<-|Hk].
    + by rewrite !lookup_delete_eq.
    + by rewrite !lookup_delete_ne.
Qed.

End StoreOperations.

(** ** Result order *)
Section Ordering.

(** The integer a value of the ordering field stands for, within one
    kind of values (timestamps, or ints). *)
Variable key : pyval → option Z.
Hypothesis key_compare :
  ∀ a b x y, key a = Some x → key b = Some y → val_compare a b = Z.compare x y.

Variable f : string.

Definition keyed (e : string * doc) : Prop := ∃ z, (e.2 !! f) ≫= key = Some z.

Definition key_of (d : doc) : Z := default 0 ((d !! f) ≫= key).

Definition key_le (a b : string * doc) : Prop := key_of a.2 ≤ key_of b.2.

#[local] Instance key_le_trans : Transitive key_le.
Proof. unfold key_le. intros a b c. lia. Qed.

Lemma keyed_compare x y :
  keyed x → keyed y →
  val_compare (default VNone (x.2 !! f)) (default VNone (y.2 !! f))
  = Z.compare (key_of x.2) (key_of y.2).
Proof.
  intros [zx Hx] [zy Hy]. unfold key_of. rewrite Hx, Hy. cbn [from_option id].
  destruct (x.2 !! f) as [vx|]; [|done]. destruct (y.2 !! f) as [vy|]; [|done].
  cbn in Hx, Hy |- *. by apply key_compare.
Qed.

Lemma entry_leb_key_true x y :
  keyed x → keyed y → entry_leb (Some f) x y = true → key_le x y.
Proof.
  intros Hx Hy. unfold entry_leb, key_le. rewrite (keyed_compare x y Hx Hy).
  destruct (Z.compare_spec (key_of x.2) (key_of y.2)); intros; first [lia | done].
Qed.

Lemma entry_leb_key_false x y :
  keyed x → keyed y → entry_leb (Some f) x y = false → key_le y x.
Proof.
  intros Hx Hy. unfold entry_leb, key_le. rewrite (keyed_compare x y Hx Hy).
  destruct (Z.compare_spec (key_of x.2) (key_of y.2)); intros; first [lia | done].
Qed.

Lemma insert_sorted_by_key x l :
  keyed x → Forall keyed l →
  Sorted key_le l → Sorted key_le (insert_sorted (entry_leb (Some f)) x l).
Proof.
  intros Hx Hl Hs. induction l as [|y l IH]; cbn [insert_sorted].
  - repeat constructor.
  - apply Forall_cons in Hl as [Hy Hl].
    destruct (entry_leb (Some f) x y) eqn:E.
    + constructor; [done|]. constructor. by apply entry_leb_key_true.
    + inversion Hs; subst. constructor; [by apply IH|].
      apply HdRel_insert_sorted; [by apply entry_leb_key_false|done].
Qed.

Lemma sort_by_key l :
  Forall keyed l → StronglySorted key_le (sort (entry_leb (Some f)) l).
Proof.
  intros H. apply Sorted_StronglySorted; [apply _|].
  induction l as [|x l IH]; [constructor|].
  change (sort ?leb (x :: l)) with (insert_sorted leb x (sort leb l)).
  apply Forall_cons in H as [Hx Hl]. apply insert_sorted_by_key; [done| |by apply IH].
  by rewrite sort_perm.
Qed.

Lemma StronglySorted_take {A} (R : relation A) n (l : list A) :
  StronglySorted R l → StronglySorted R (take n l).
Proof.
  intros H. rewrite <- (take_drop n l) in H. by apply StronglySorted_app_1_l in H.
Qed.

(** The results of a query ordered by [f] are in ascending key order,
    when every stored value of [f] in the collection has a key. *)
Lemma query_documents_sorted st c filters limit :
  f ≠ "id" →
  (∀ id stored v, coll st c !! id = Some stored → stored !! f = Some v →
                  is_Some (key v)) →
  StronglySorted (λ a b : doc, key_of a ≤ key_of b)
                 (query_documents st c filters (Some f) limit).
Proof.
  intros Hf Hkey.
  assert (StronglySorted (λ a b : doc, key_of a ≤ key_of b)
                         (query_documents st c filters (Some f) None)) as Hs.
  { rewrite query_documents_unlimited.
    apply (StronglySorted_fmap _ key_le).
    { intros x y. unfold key_le, key_of, with_id. by rewrite !lookup_insert_ne. }
    apply sort_by_key. apply Forall_forall. intros [id stored] He.
    apply elem_of_selection in He as [Hl Hsel]. unfold selected in Hsel.
    apply andb_true_iff in Hsel as [_ Ho]. cbn [snd fst] in *.
    destruct (stored !! f) as [v|] eqn:Ev; [|done].
    destruct (Hkey id stored v Hl Ev) as [z Hz]. exists z. cbn [snd].
    by rewrite Ev. }
  destruct limit as [[|n]|]; [done| |done].
  rewrite query_documents_take. by apply StronglySorted_take.
Qed.

End Ordering.

Definition time_key (v : pyval) : option Z :=
  match v with VTime t => Some t | _ => None end.

Definition int_key (v : pyval) : option Z :=
  match v with VInt z => Some z | _ => None end.

Lemma time_key_compare a b x y :
  time_key a = Some x → time_key b = Some y → val_compare a b = Z.compare x y.
Proof. destruct a, b; try done. intros [= ->] [= ->]. apply val_compare_time. Qed.

Lemma int_key_compare a b x y :
  int_key a = Some x → int_key b = Some y → val_compare a b = Z.compare x y.
Proof.
  destruct a, b; try done. intros [= ->] [= ->].
  unfold val_compare. cbn [rank Z.compare Py.num_cmp Py.num_value].
  unfold Qcompare, inject_Z. cbn [Qnum Qden]. by rewrite !Z.mul_1_r.
Qed.

(** X5.  A query ordered by a field that holds timestamps (created_at,
    date, executed_at, ...) returns its documents oldest first, with or
    without a limit. *)
Theorem query_documents_oldest_first st c filters f limit :
  f ≠ "id" →
  (∀ id stored v, get_document st c id = Some stored → stored !! f = Some v →
                  ∃ t, v = VTime t) →
  StronglySorted (λ a b : doc, key_of time_key f a ≤ key_of time_key f b)
                 (query_documents st c filters (Some f) limit).
Proof.
  intros Hf Ht. apply (query_documents_sorted time_key time_key_compare); [done|].
  intros id stored v Hl Hv. destruct (Ht id stored v Hl Hv) as [t ->]. by exists t.
Qed.

Definition timestamp_or_absent (f : string) (stored : doc) : bool :=
  match stored !! f with
  | Some (VTime _) | None => true
  | Some _ => false
  end.

Lemma timestamp_or_absent_spec st c f :
  map_Forall (λ _ stored, timestamp_or_absent f stored = true) (coll st c) →
  ∀ id stored v, get_document st c id = Some stored → stored !! f = Some v →
                 ∃ t, v = VTime t.
Proof.
  intros Hall id stored v Hl Hv. specialize (Hall id stored Hl).
  unfold timestamp_or_absent in Hall. rewrite Hv in Hall.
  destruct v; try done. by eexists.
Qed.

(** ** Price lookup (portfolio-service and strategy-engine) *)
Section Prices.

Lemma selected_symbol_by_date sym (e : string * doc) :
  selected [("symbol", OpEq, VStr sym)] (Some "date") e = true ↔
  e.2 !! "symbol" = Some (VStr sym) ∧ is_Some (e.2 !! "date").
Proof.
  rewrite selected_spec, Forall_cons, Forall_nil, matches_eq_str. tauto.
Qed.

Lemma date_with_id (e : string * doc) t :
  e.2 !! "date" = Some (VTime t) → key_of time_key "date" (with_id e) = t.
Proof.
  intros H. unfold key_of, with_id. rewrite lookup_insert_ne by done. by rewrite H.
Qed.

(** X6.  [get_current_price] reads the close of the symbol's price
    record with the earliest date (the query is ordered by date,
    ascending, and limited to one result): whenever it returns a price,
    that price is the close of a stored record of the symbol that no
    other dated record of the symbol precedes.  The two services carry
    the same function. *)
Theorem get_current_price_reads_earliest st sym price :
  (∀ id stored v, get_document st "di_prices_daily" id = Some stored →
                  stored !! "date" = Some v → ∃ t, v = VTime t) →
  PortfolioManager.get_current_price st (VStr sym) = Some price →
  StrategyEngine.get_current_price st (VStr sym) = Some price ∧
  ∃ id stored t,
    get_document st "di_prices_daily" id = Some stored ∧
    stored !! "symbol" = Some (VStr sym) ∧
    stored !! "date" = Some (VTime t) ∧
    (stored !! "close_price") ≫= Py.decimal_of_str = Some price ∧
    ∀ id' stored' t',
      get_document st "di_prices_daily" id' = Some stored' →
      stored' !! "symbol" = Some (VStr sym) →
      stored' !! "date" = Some (VTime t') →
      t ≤ t'.
Proof.
  intros Hdates Hp. split; [exact Hp|].
  unfold PortfolioManager.get_current_price in Hp.
  rewrite query_documents_take in Hp.
  assert (StronglySorted
            (λ a b : doc, key_of time_key "date" a ≤ key_of time_key "date" b)
            (query_documents st "di_prices_daily" [("symbol", OpEq, VStr sym)]
                             (Some "date") None)) as Hs.
  { apply (query_documents_sorted time_key time_key_compare); [done|].
    intros id stored v Hl Hv. destruct (Hdates id stored v Hl Hv) as [t ->].
    by exists t. }
  destruct (query_documents st "di_prices_daily" [("symbol", OpEq, VStr sym)]
                            (Some "date") None) as [|p rest] eqn:EL; [done|].
  cbn [take] in Hp.
  assert (p ∈ query_documents st "di_prices_daily" [("symbol", OpEq, VStr sym)]
                              (Some "date") None) as Hin by (rewrite EL; left).
  apply elem_of_query_documents in Hin as (id & stored & Hl & -> & Hsel).
  apply selected_symbol_by_date in Hsel as [Hsym [v Hv]]. cbn [snd] in Hsym, Hv.
  destruct (Hdates id stored v Hl Hv) as [t ->].
  exists id, stored, t. split; [done|]. split; [done|]. split; [done|]. split.
  - unfold with_id in Hp. cbn [fst snd] in Hp.
    rewrite lookup_insert_ne in Hp by done.
    by destruct (stored !! "close_price").
  - intros id' stored' t' Hl' Hsym' Hd'.
    assert (with_id (id', stored') ∈ with_id (id, stored) :: rest) as Hin'.
    { rewrite <- EL. apply elem_of_query_documents. exists id', stored'.
      split; [done|]. split; [done|]. apply selected_symbol_by_date.
      cbn [snd]. by rewrite Hd'. }
    apply StronglySorted_inv in Hs as [_ Hall].
    rewrite <- (date_with_id (id, stored) t Hv).
    rewrite <- (date_with_id (id', stored') t' Hd').
    apply elem_of_cons in Hin' as [-> | Hin']; [done|].
    rewrite Forall_forall in Hall. by apply Hall.
Qed.

(** X7.  [get_current_price] is None when the symbol has no price
    record that carries a date (a record without the ordering field is
    not returned by the ordered query), and then no trade executes. *)
Theorem get_current_price_without_dated_record st clk sym (signal : doc) :
  (∀ id stored, get_document st "di_prices_daily" id = Some stored →
                stored !! "symbol" = Some (VStr sym) → stored !! "date" = None) →
  PortfolioManager.get_current_price st (VStr sym) = None ∧
  StrategyEngine.get_current_price st (VStr sym) = None ∧
  (signal !! "symbol" = Some (VStr sym) →
   PortfolioManager.execute_trade st clk signal = (None, st)).
Proof.
  intros H.
  assert (query_documents st "di_prices_daily" [("symbol", OpEq, VStr sym)]
                          (Some "date") (Some 1%nat) = []) as Hq.
  { apply query_documents_nil. intros id stored Hl.
    destruct (selected _ _ _) eqn:E; [|done].
    apply selected_symbol_by_date in E as [Hs [v Hv]]. cbn [snd] in *.
    by rewrite (H id stored Hl Hs) in Hv. }
  assert (PortfolioManager.get_current_price st (VStr sym) = None) as Hp.
  { unfold PortfolioManager.get_current_price. by rewrite Hq. }
  split; [done|]. split; [exact Hp|].
  intros Hs. unfold PortfolioManager.execute_trade, PortfolioManager.execute_trade_body.
  rewrite Hs, Hp. by repeat case_match.
Qed.

End Prices.

(** A price history of two days, and a record that lacks its date. *)
Definition price_record (sym : string) (date : option Z) (close : Float.t) : doc :=
  list_to_map (("symbol", VStr sym) :: ("close_price", VFloat close)
               :: match date with Some t => [("date", VTime t)] | None => [] end).

Definition price_history : store :=
  {[ "di_prices_daily" :=
       <["AAPL_2026-11-02" := price_record "AAPL" (Some 1793577600000000)
                                          (Float.lit 1501 10)]>
         (<["AAPL_2026-11-03" := price_record "AAPL" (Some 1793664000000000)
                                             (Float.lit 15525 100)]>
            {[ "MSFT_undated" := price_record "MSFT" None (Float.lit 4105 10) ]}) ]}.

Lemma query_documents_exact_witness :
  NoDup (query_documents price_history "di_prices_daily"
                         [("symbol", OpEq, VStr "AAPL")] (Some "date") (Some 1%nat)).
Proof.
  refine (proj2 (query_documents_exact price_history "di_prices_daily"
                   [("symbol", OpEq, VStr "AAPL")] (Some "date") ∅ _) (Some 1%nat)).
  discriminate.
Defined.

Lemma query_documents_oldest_first_witness :
  StronglySorted (λ a b : doc, key_of time_key "date" a ≤ key_of time_key "date" b)
                 (query_documents price_history "di_prices_daily" [] (Some "date") None).
Proof.
  apply (query_documents_oldest_first price_history "di_prices_daily" [] "date" None);
    [done|].
  apply timestamp_or_absent_spec. compute_done.
Defined.

Lemma get_current_price_reads_earliest_witness :
  ∃ id stored t,
    get_document price_history "di_prices_daily" id = Some stored ∧
    stored !! "symbol" = Some (VStr "AAPL") ∧
    stored !! "date" = Some (VTime t) ∧
    (stored !! "close_price") ≫= Py.decimal_of_str
      = Some (Decimal.Mk false 1501%N (-1)) ∧
    ∀ id' stored' t',
      get_document price_history "di_prices_daily" id' = Some stored' →
      stored' !! "symbol" = Some (VStr "AAPL") →
      stored' !! "date" = Some (VTime t') →
      t ≤ t'.
Proof.
  refine (proj2 (get_current_price_reads_earliest
                   price_history "AAPL" (Decimal.Mk false 1501%N (-1)) _ _)).
  - apply timestamp_or_absent_spec. compute_done.
  - compute_done.
Defined.

Lemma get_current_price_without_dated_record_witness :
  PortfolioManager.get_current_price price_history (VStr "MSFT") = None.
Proof.
  refine (proj1 (get_current_price_without_dated_record
                   price_history example_clock "MSFT" ∅ _)).
  intros id stored Hl Hs.
  assert (map_Forall (λ _ (stored : doc),
                        stored !! "symbol" = Some (VStr "MSFT") →
                        stored !! "date" = None)
                     (coll price_history "di_prices_daily")) as Hall.
  { apply map_Forall_to_list. vm_compute map_to_list.
    repeat constructor; cbn [uncurry]; intros Hx; first [done | compute_done]. }
  exact (Hall id stored Hl Hs).
Defined.

(** ** Trade execution and the ledger: edges and invariants *)
Section LedgerEdges.
Import PortfolioManager.

Lemma no_active_position_query st sym :
  (∀ pid (d : doc), coll st "pf_positions_active" !! pid = Some d →
                    d !! "symbol" = Some (VStr sym) →
                    d !! "status" ≠ Some (VStr "active")) →
  query_documents st "pf_positions_active" (position_filters sym) None None = [].
Proof.
  intros H. apply query_documents_nil. intros pid d Hl.
  destruct (selected _ _ _) eqn:E; [|done].
  apply selected_position_iff in E as [Hs Ha]. by destruct (H pid d Hl Hs).
Qed.

(** X8.  [execute_trade] treats every signal type other than the text
    "buy" as a sale ("hold" included): the transaction id says "sell"
    and the ledger is updated with a SELL transaction; only "buy" buys.
    The transaction record itself is not kept: it holds Decimals, the
    store refuses it, and the transactions collection is as before. *)
Theorem execute_trade_sells_unless_buy st clk (signal : doc) sym signal_type
        quantity price execution_price :
  signal !! "symbol" = Some (VStr sym) →
  signal !! "signal_type" = Some signal_type →
  signal !! "quantity" = Some (VInt quantity) →
  get_current_price st (VStr sym) = Some price →
  Decimal.is_zero price = false →
  Py.decimal_of_str (default (VDec price) (signal !! "price_limit"))
    = Some execution_price →
  let transaction_type :=
    if decide (signal_type = VStr "buy") then TransactionType.BUY
    else TransactionType.SELL in
  let word := if decide (signal_type = VStr "buy") then "buy" else "sell" in
  let transaction_id :=
    (sym +:+ "_" +:+ word +:+ "_" +:+ Datetime.strftime "" "" (now clk))%string in
  let total_amount := Decimal.mul execution_price (Decimal.of_int quantity) in
  let transaction :=
    Transaction.Mk sym transaction_type quantity execution_price total_amount
                   (Decimal.mul total_amount fee_rate)
                   (now clk) (utcnow clk) (utcnow clk) in
  execute_trade st clk signal
  = (Some transaction_id, update_positions st clk transaction) ∧
  coll (execute_trade st clk signal).2 "pf_transactions" = coll st "pf_transactions".
Proof.
  intros Hs Hty Hq Hp Hz Hx transaction_type word transaction_id total_amount transaction.
  rewrite (execute_trade_accepts _ _ _ _ _ _ _ _ Hs Hty Hq Hp Hz Hx). cbn [fst snd].
  assert (transaction_id_of clk sym signal_type = transaction_id) as ->.
  { unfold transaction_id_of, transaction_id, word, side. by destruct (decide _). }
  split; [reflexivity|]. by apply update_positions_other.
Qed.

(** X9.  A sale of a symbol that has no active position returns a
    transaction id and leaves the store exactly as it was: no position
    is created or changed, and the transaction is not recorded (the
    store refuses its Decimals). *)
Theorem sale_without_position_writes_nothing st clk (signal : doc) sym signal_type
        quantity price execution_price :
  signal !! "symbol" = Some (VStr sym) →
  signal !! "signal_type" = Some signal_type →
  signal_type ≠ VStr "buy" →
  signal !! "quantity" = Some (VInt quantity) →
  get_current_price st (VStr sym) = Some price →
  Decimal.is_zero price = false →
  Py.decimal_of_str (default (VDec price) (signal !! "price_limit"))
    = Some execution_price →
  (∀ pid (d : doc), get_document st "pf_positions_active" pid = Some d →
                    d !! "symbol" = Some (VStr sym) →
                    d !! "status" ≠ Some (VStr "active")) →
  execute_trade st clk signal
  = (Some (sym +:+ "_sell_" +:+ Datetime.strftime "" "" (now clk))%string, st).
Proof.
  intros Hs Hty Hne Hq Hp Hz Hx Hnone.
  rewrite (execute_trade_accepts _ _ _ _ _ _ _ _ Hs Hty Hq Hp Hz Hx).
  unfold transaction_id_of, transaction_of, side.
  destruct (decide (signal_type = VStr "buy")) as [Hb|_]; [by destruct Hne|].
  f_equal. unfold update_positions, update_positions_body.
  cbn [Transaction.transaction_type Transaction.symbol].
  by rewrite (no_active_position_query st sym Hnone).
Qed.

(** X10.  A buy of a symbol that has no active position returns a
    transaction id and opens nothing: the position record built for it
    carries its average cost as a Decimal, the store refuses it, and the
    store is left exactly as it was (so the symbol still has no
    position afterwards). *)
Theorem buy_without_position_opens_nothing st clk (signal : doc) sym quantity price
        execution_price :
  signal !! "symbol" = Some (VStr sym) →
  signal !! "signal_type" = Some (VStr "buy") →
  signal !! "quantity" = Some (VInt quantity) →
  get_current_price st (VStr sym) = Some price →
  Decimal.is_zero price = false →
  Py.decimal_of_str (default (VDec price) (signal !! "price_limit"))
    = Some execution_price →
  (∀ pid (d : doc), get_document st "pf_positions_active" pid = Some d →
                    d !! "symbol" = Some (VStr sym) →
                    d !! "status" ≠ Some (VStr "active")) →
  execute_trade st clk signal
  = (Some (sym +:+ "_buy_" +:+ Datetime.strftime "" "" (now clk))%string, st).
Proof.
  intros Hs Hty Hq Hp Hz Hx Hnone.
  rewrite (execute_trade_accepts _ _ _ _ _ _ _ _ Hs Hty Hq Hp Hz Hx).
  f_equal. apply first_buy_opens_nothing; [reflexivity|].
  by apply no_active_position_query.
Qed.

(** X11.  Whatever the signal, [execute_trade] writes to the
    transactions and the two position partitions only; when it returns
    no transaction id it has written nothing at all; and a successful
    call leaves every other recorded transaction as it was. *)
Theorem execute_trade_frame st clk (signal : doc) :
  let r := execute_trade st clk signal in
  (r.1 = None → r.2 = st) ∧
  (∀ c, c ≠ "pf_transactions" → c ≠ "pf_positions_active" →
        c ≠ "pf_positions_history" → coll r.2 c = coll st c) ∧
  (∀ id, r.1 ≠ Some id →
         get_document r.2 "pf_transactions" id = get_document st "pf_transactions" id).
Proof.
  intros r. subst r.
  destruct (execute_trade_cases st clk signal)
    as [-> | (sym & ty & q & price & xp & Hs & Hty & Hq & Hp & Hz & Hx)]; [done|].
  rewrite (execute_trade_accepts _ _ _ _ _ _ _ _ Hs Hty Hq Hp Hz Hx). cbn [fst snd].
  split; [done|]. split.
  - intros c H1 H2 H3. by apply update_positions_other.
  - intros id Hid. unfold get_document. by rewrite update_positions_other.
Qed.

(** X12.  A signal that lacks its symbol, signal_type or quantity, or
    whose price_limit key is present but holds None, is refused: no
    transaction id, nothing written (the price limit is read with
    [signal.get('price_limit', current_price)], so a stored None
    reaches [Decimal(str(None))]). *)
Theorem execute_trade_refuses_malformed st clk (signal : doc) :
  signal !! "symbol" = None ∨ signal !! "signal_type" = None ∨
  signal !! "quantity" = None ∨ signal !! "price_limit" = Some VNone →
  execute_trade st clk signal = (None, st).
Proof.
  intros H.
  destruct (execute_trade_cases st clk signal)
    as [-> | (sym & ty & q & price & xp & Hs & Hty & Hq & Hp & Hz & Hx)]; [done|].
  destruct H as [H | [H | [H | H]]]; try congruence.
  by rewrite H in Hx.
Qed.

(** X13.  Buys and sells keep to their side of the ledger: a buy never
    removes an active position and never touches the history; a sale
    never adds an active position, and a position it removes from the
    active partition is in the history under the same id. *)
Theorem update_positions_partitions st clk (transaction : Transaction.t) :
  let st' := update_positions st clk transaction in
  match Transaction.transaction_type transaction with
  | TransactionType.BUY =>
      dom (coll st "pf_positions_active") ⊆ dom (coll st' "pf_positions_active") ∧
      coll st' "pf_positions_history" = coll st "pf_positions_history"
  | TransactionType.SELL =>
      dom (coll st' "pf_positions_active") ⊆ dom (coll st "pf_positions_active") ∧
      dom (coll st "pf_positions_history") ⊆ dom (coll st' "pf_positions_history") ∧
      ∀ pid, pid ∈ dom (coll st "pf_positions_active") →
             pid ∉ dom (coll st' "pf_positions_active") →
             pid ∈ dom (coll st' "pf_positions_history")
  end.
Proof.
  intros st'. subst st'. unfold update_positions, update_positions_body.
  destruct (Transaction.transaction_type transaction).
  - destruct (query_documents _ _ _ _ _) as [|position rest].
    + cbn [from_option id].
      by rewrite upsert_document_refused by apply position_dict_refused.
    + split_goal; cbn [from_option id]; try done.
      rewrite dom_coll_update_document.
      by rewrite coll_update_document_ne by discriminate.
  - destruct (query_documents _ _ _ _ _) as [|position rest] eqn:Eq;
      [cbn [from_option id]; done|].
    apply query_documents_head in Eq as (pid0 & stored & Hl & -> & _).
    assert (∀ q closed_at,
              encodable (<["quantity" := VInt q]>
                           (<["closed_at" := VTime closed_at]>
                              (<["status" := VStr "closed"]> (with_id (pid0, stored)))))
              = true) as Henc.
    { intros q closed_at. do 3 (apply encodable_insert; [reflexivity|]).
      by apply (encodable_with_id st "pf_positions_active"). }
    split_goal; cbn [from_option id]; try done.
    + rewrite coll_delete_document, !coll_delete_document_ne by discriminate.
      rewrite coll_upsert_document_ne by discriminate.
      rewrite (coll_upsert_document _ _ _ _ (Henc _ _)).
      rewrite dom_delete_L, dom_insert_L.
      split; [apply subseteq_difference_l; done|].
      split; [apply union_subseteq_r|].
      intros pid Hin Hout. rewrite elem_of_union, elem_of_singleton.
      match goal with |- pid = ?s ∨ _ => destruct (decide (pid = s)) as [->|Hne] end;
        [by left|].
      destruct Hout. apply elem_of_difference. split; [done|].
      by rewrite elem_of_singleton.
    + rewrite !dom_coll_update_document.
      split; [done|]. split; [done|]. intros pid Hin Hout. done.
Qed.

(** What one iteration of the valuation loop writes, when it writes. *)
Lemma update_position_value_writes st clk (position : doc) st1 :
  update_position_value st clk position = Some st1 →
  st1 = st ∨ ∃ id data, st1 = update_document st "pf_positions_active" id data.
Proof.
  assert (from_option
            (λ st1, st1 = st ∨
                    ∃ id data, st1 = update_document st "pf_positions_active" id data)
            True (update_position_value st clk position)) as H.
  { unfold update_position_value.
    split_goal; cbn [from_option];
      first [exact I | by left | right; by eexists _, _]. }
  intros E. by rewrite E in H.
Qed.

(** X14.  [update_position_values] never creates or deletes a document
    and writes to the active positions only, whether or not the
    valuation of some position raises. *)
Theorem update_position_values_keeps_documents st clk :
  let st' := update_position_values st clk in
  (∀ c, dom (coll st' c) = dom (coll st c)) ∧
  (∀ c, c ≠ "pf_positions_active" → coll st' c = coll st c).
Proof.
  intros st'. subst st'. unfold update_position_values.
  generalize (query_documents st "pf_positions_active"
                              [("status", OpEq, VStr "active")] None None).
  intros positions.
  assert (∀ st0,
            (∀ c, dom (coll (update_position_values_loop st0 clk positions) c)
                  = dom (coll st0 c)) ∧
            (∀ c, c ≠ "pf_positions_active" →
                  coll (update_position_values_loop st0 clk positions) c = coll st0 c))
    as H; [|apply H].
  induction positions as [|position rest IH]; intros st0; cbn [update_position_values_loop];
    [done|].
  destruct (update_position_value st0 clk position) as [st1|] eqn:E; [|done].
  destruct (IH st1) as [IH1 IH2].
  assert ((∀ c, dom (coll st1 c) = dom (coll st0 c)) ∧
          (∀ c, c ≠ "pf_positions_active" → coll st1 c = coll st0 c)) as [H1 H2].
  { destruct (update_position_value_writes st0 clk position st1 E)
      as [-> | (id & data & ->)]; [done|].
    split; intros c; [apply dom_coll_update_document|].
    intros Hc. by rewrite coll_update_document_ne. }
  split.
  - intros c. by rewrite IH1, H1.
  - intros c Hc. by rewrite IH2, H2.
Qed.

End LedgerEdges.

(** A signal to hold three AAPL shares, a market order for them, and
    the same order with a price limit of None. *)
Definition order (signal_type : string) (quantity : Z) : doc :=
  list_to_map [("symbol", VStr "AAPL"); ("signal_type", VStr signal_type);
               ("quantity", VInt quantity)].

Lemma execute_trade_sells_unless_buy_witness :
  PortfolioManager.execute_trade price_history example_clock (order "hold" 3)
  = (Some "AAPL_sell_20261104_080000", price_history).
Proof.
  rewrite (proj1 (execute_trade_sells_unless_buy
                    price_history example_clock (order "hold" 3) "AAPL" (VStr "hold") 3
                    (Decimal.Mk false 1501%N (-1)) (Decimal.Mk false 1501%N (-1))
                    ltac:(compute_done) ltac:(compute_done) ltac:(compute_done)
                    ltac:(compute_done) ltac:(compute_done) ltac:(compute_done))).
  compute_done.
Defined.

Lemma sale_without_position_writes_nothing_witness :
  PortfolioManager.execute_trade price_history example_clock (order "sell" 3)
  = (Some "AAPL_sell_20261104_080000", price_history).
Proof.
  refine (sale_without_position_writes_nothing
            price_history example_clock (order "sell" 3) "AAPL" (VStr "sell") 3
            (Decimal.Mk false 1501%N (-1)) (Decimal.Mk false 1501%N (-1))
            _ _ _ _ _ _ _ _); compute_done.
Defined.

Lemma buy_without_position_opens_nothing_witness :
  PortfolioManager.execute_trade price_history example_clock (order "buy" 3)
  = (Some "AAPL_buy_20261104_080000", price_history).
Proof.
  refine (buy_without_position_opens_nothing
            price_history example_clock (order "buy" 3) "AAPL" 3
            (Decimal.Mk false 1501%N (-1)) (Decimal.Mk false 1501%N (-1))
            _ _ _ _ _ _ _); compute_done.
Defined.

Lemma execute_trade_refuses_malformed_witness :
  PortfolioManager.execute_trade price_history example_clock
                                 (<["price_limit" := VNone]> (order "buy" 3))
  = (None, price_history).
Proof.
  refine (execute_trade_refuses_malformed
            price_history example_clock (<["price_limit" := VNone]> (order "buy" 3)) _).
  do 3 right. compute_done.
Defined.

(** ** portfolio-service/main.py: WatchlistManager *)

Definition opt_str (o : option string) : pyval :=
  match o with Some s => VStr s | None => VNone end.

Module WatchlistItem.
Record t := Mk {
  symbol : string;
  added_by : string;
  notes : option string;
  priority : Z;
  created_at : Z;
  updated_at : Z
}.
(** [WatchlistItem(symbol=.., added_by=.., notes=.., priority=..)];
    [priority: int = Field(default=1, ge=1, le=5)], [None] is the
    ValidationError. *)
Definition make (clk : clock) (symbol added_by : string) (notes : option string)
           (priority : Z) : option t :=
  if (1 <=? priority) && (priority <=? 5)
  then Some (Mk symbol added_by notes priority (utcnow clk) (utcnow clk))
  else None.
Definition dict (x : t) : doc :=
  list_to_map [
    ("created_at", VTime (created_at x));
    ("updated_at", VTime (updated_at x));
    ("symbol", VStr (symbol x));
    ("added_by", VStr (added_by x));
    ("notes", opt_str (notes x));
    ("priority", VInt (priority x))
  ].
End WatchlistItem.

Module WatchlistManager.

Definition add_to_watchlist (st : store) (clk : clock) (symbol added_by : string)
           (notes : option string) (priority : Z) : bool * store :=
  (* Check if symbol is already in watchlist *)
  let existing := query_documents st "pf_watchlist" [("symbol", OpEq, VStr symbol)]
                                  None None in
  match existing with
  | _ :: _ => (true, st)
  | [] =>
      match WatchlistItem.make clk symbol added_by notes priority with
      | None => (false, st)
      | Some watchlist_item =>
          (true,
           upsert_document st "pf_watchlist"
             (symbol +:+ "_" +:+ Datetime.strftime "" "" (now clk))%string
             (WatchlistItem.dict watchlist_item))
      end
  end.

(** The for loop of [remove_from_watchlist]; [false] when [item['id']]
    raises, what was deleted before stays deleted. *)
Fixpoint remove_loop (st : store) (watchlist_items : list doc) : bool * store :=
  match watchlist_items with
  | [] => (true, st)
  | item :: rest =>
      match item !! "id" ≫= as_str with
      | Some id => remove_loop (delete_document st "pf_watchlist" id) rest
      | None => (false, st)
      end
  end.

Definition remove_from_watchlist (st : store) (symbol : string) : bool * store :=
  remove_loop st (query_documents st "pf_watchlist" [("symbol", OpEq, VStr symbol)]
                                  None None).

Definition get_watchlist (st : store) : list doc :=
  query_documents st "pf_watchlist" [] (Some "priority") None.

End WatchlistManager.

Section Watchlist.
Import WatchlistManager.

(** The symbol has an item on the watchlist. *)
Definition listed (st : store) (symbol : string) : Prop :=
  ∃ id (item : doc), get_document st "pf_watchlist" id = Some item ∧
                     item !! "symbol" = Some (VStr symbol).

Lemma selected_symbol symbol (e : string * doc) :
  selected [("symbol", OpEq, VStr symbol)] None e = true ↔
  e.2 !! "symbol" = Some (VStr symbol).
Proof. rewrite selected_spec, Forall_cons, Forall_nil, matches_eq_str. tauto. Qed.

Lemma listed_query st symbol :
  listed st symbol ↔
  query_documents st "pf_watchlist" [("symbol", OpEq, VStr symbol)] None None ≠ [].
Proof.
  split.
  - intros (id & item & Hl & Hs) Hnil.
    assert (with_id (id, item) ∈
              query_documents st "pf_watchlist" [("symbol", OpEq, VStr symbol)] None None)
      as Hin.
    { apply elem_of_query_documents. exists id, item. split; [done|]. split; [done|].
      by apply selected_symbol. }
    rewrite Hnil in Hin. by apply elem_of_nil in Hin.
  - intros Hne.
    destruct (query_documents st "pf_watchlist" _ None None) as [|d rest] eqn:E; [done|].
    apply query_documents_head in E as (id & item & Hl & _ & Hs).
    exists id, item. split; [done|]. by apply selected_symbol in Hs.
Qed.

Lemma watchlist_item_fields (x : WatchlistItem.t) :
  WatchlistItem.dict x !! "symbol" = Some (VStr (WatchlistItem.symbol x)) ∧
  WatchlistItem.dict x !! "added_by" = Some (VStr (WatchlistItem.added_by x)) ∧
  WatchlistItem.dict x !! "notes" = Some (opt_str (WatchlistItem.notes x)) ∧
  WatchlistItem.dict x !! "priority" = Some (VInt (WatchlistItem.priority x)).
Proof. repeat split; vm_compute; reflexivity. Qed.

Lemma watchlist_item_encodable (x : WatchlistItem.t) :
  encodable (WatchlistItem.dict x) = true.
Proof. apply encodable_list. by destruct x as [? ? [notes|] ? ? ?]. Qed.

Lemma add_to_watchlist_listed st clk symbol added_by notes priority :
  listed st symbol →
  add_to_watchlist st clk symbol added_by notes priority = (true, st).
Proof.
  intros H. apply listed_query in H. unfold add_to_watchlist.
  by destruct (query_documents st "pf_watchlist" _ None None).
Qed.

(** X15.  [add_to_watchlist] answers True and changes nothing when the
    symbol already has an item, whatever priority is asked for (the
    priority is validated only when an item is built); for a symbol not
    yet listed, a priority outside 1..5 is refused: False, nothing
    written. *)
Theorem add_to_watchlist_edges st clk symbol added_by notes priority :
  (listed st symbol →
   add_to_watchlist st clk symbol added_by notes priority = (true, st)) ∧
  (¬ listed st symbol → priority < 1 ∨ 5 < priority →
   add_to_watchlist st clk symbol added_by notes priority = (false, st)).
Proof.
  split; [apply add_to_watchlist_listed|]. unfold add_to_watchlist.
  intros H Hp. rewrite listed_query in H.
    destruct (query_documents st "pf_watchlist" _ None None); [|by destruct H].
    unfold WatchlistItem.make.
    destruct (Z.leb_spec 1 priority), (Z.leb_spec priority 5); cbn [andb]; first [done|lia].
Qed.

(** X16.  Adding a symbol that is not listed, with a priority within
    1..5, creates exactly one item for it, holding the symbol, who
    added it, the notes and the priority; every other document stays,
    and adding the symbol again (with any arguments, at any time) is
    then a no-op that answers True. *)
Theorem add_to_watchlist_adds_once st clk symbol added_by notes priority :
  ¬ listed st symbol → 1 ≤ priority ≤ 5 →
  let r := add_to_watchlist st clk symbol added_by notes priority in
  r.1 = true ∧
  (∃ id item,
     get_document r.2 "pf_watchlist" id = Some item ∧
     item !! "symbol" = Some (VStr symbol) ∧
     item !! "added_by" = Some (VStr added_by) ∧
     item !! "notes" = Some (opt_str notes) ∧
     item !! "priority" = Some (VInt priority) ∧
     (∀ id' (item' : doc),
        get_document r.2 "pf_watchlist" id' = Some item' →
        item' !! "symbol" = Some (VStr symbol) → id' = id) ∧
     (∀ c id', (c, id') ≠ ("pf_watchlist", id) →
               get_document r.2 c id' = get_document st c id')) ∧
  (∀ clk' added_by' notes' priority',
     add_to_watchlist r.2 clk' symbol added_by' notes' priority' = (true, r.2)).
Proof.
  intros Hfresh Hp r.
  assert (r = (true,
               upsert_document st "pf_watchlist"
                 (symbol +:+ "_" +:+ Datetime.strftime "" "" (now clk))%string
                 (WatchlistItem.dict
                    (WatchlistItem.Mk symbol added_by notes priority
                                      (utcnow clk) (utcnow clk))))) as ->.
  { subst r. unfold add_to_watchlist. rewrite listed_query in Hfresh.
    destruct (query_documents st "pf_watchlist" _ None None); [|by destruct Hfresh].
    unfold WatchlistItem.make.
    destruct (Z.leb_spec 1 priority), (Z.leb_spec priority 5); cbn [andb]; first [done|lia]. }
  cbn [fst snd].
  set (item := WatchlistItem.Mk _ _ _ _ _ _).
  set (id := (_ +:+ _)%string).
  destruct (watchlist_item_fields item) as (Hs & Ha & Hn & Hpr).
  assert (∃ stored, get_document (upsert_document st "pf_watchlist" id
                                    (WatchlistItem.dict item)) "pf_watchlist" id
                    = Some stored ∧
                    stored !! "symbol" = Some (VStr symbol) ∧
                    stored !! "added_by" = Some (VStr added_by) ∧
                    stored !! "notes" = Some (opt_str notes) ∧
                    stored !! "priority" = Some (VInt priority))
    as (stored & Hl & Hs' & Ha' & Hn' & Hpr').
  { unfold get_document.
    rewrite coll_upsert_document by apply watchlist_item_encodable.
    rewrite lookup_insert_eq.
    eexists. split; [done|]. repeat split; by apply lookup_union_Some_l. }
  assert (∀ c id', (c, id') ≠ ("pf_watchlist", id) →
                   get_document (upsert_document st "pf_watchlist" id
                                   (WatchlistItem.dict item)) c id'
                   = get_document st c id') as Hframe.
  { intros c id' Hne. unfold get_document.
    destruct (decide ("pf_watchlist" = c)) as [<-|Hc];
      [|by rewrite coll_upsert_document_ne].
    rewrite coll_upsert_document by apply watchlist_item_encodable.
    rewrite lookup_insert_ne; [done|]. congruence. }
  split; [done|]. split.
  - exists id, stored. do 5 (split; [done|]). split; [|done].
    intros id' item' Hl' Hsym'.
    destruct (decide (id' = id)) as [->|Hne]; [done|].
    rewrite Hframe in Hl' by congruence.
    destruct Hfresh. exists id', item'. split; [exact Hl' | exact Hsym'].
  - intros clk' added_by' notes' priority'.
    apply add_to_watchlist_listed. exists id, stored. split; [exact Hl | exact Hs'].
Qed.

Lemma remove_loop_entries st (es : list (string * doc)) :
  remove_loop st (with_id <$> es)
  = (true, foldl (λ s e, delete_document s "pf_watchlist" e.1) st es).
Proof.
  revert st. induction es as [|e es IH]; intros st; [done|].
  cbn [fmap list_fmap remove_loop foldl]. unfold with_id at 1.
  rewrite lookup_insert_eq. cbn [mbind option_bind as_str]. apply IH.
Qed.

Lemma coll_delete_entries st (es : list (string * doc)) c :
  coll (foldl (λ s e, delete_document s "pf_watchlist" e.1) st es) c
  = if decide (c = "pf_watchlist")
    then foldl (λ m e, delete e.1 m) (coll st c) es
    else coll st c.
Proof.
  revert st. induction es as [|e es IH]; intros st; cbn [foldl].
  - by destruct (decide _).
  - rewrite IH. destruct (decide _) as [->|Hc].
    + by rewrite coll_delete_document.
    + by rewrite coll_delete_document_ne.
Qed.

Lemma lookup_delete_entries (m : collection) (es : list (string * doc)) k :
  foldl (λ m e, delete e.1 m) m es !! k
  = if decide (k ∈ es.*1) then None else m !! k.
Proof.
  revert m. induction es as [|e es IH]; intros m; cbn [foldl fmap list_fmap].
  - destruct (decide _) as [H|]; [by apply elem_of_nil in H|done].
  - rewrite IH. destruct (decide (k ∈ es.*1)) as [Hin|Hout].
    + rewrite decide_True; [done|]. by right.
    + destruct (decide (k = e.1)) as [->|Hne].
      * rewrite decide_True by left. by rewrite lookup_delete_eq.
      * rewrite decide_False; [by rewrite lookup_delete_ne|].
        intros [?|?]%elem_of_cons; done.
Qed.

(** X17.  [remove_from_watchlist] answers True and removes every item
    of the symbol (all of them, should there be several); the items of
    other symbols and every other collection are untouched, and no
    document appears. *)
Theorem remove_from_watchlist_removes st symbol :
  let r := remove_from_watchlist st symbol in
  r.1 = true ∧
  ¬ listed r.2 symbol ∧
  (∀ id (item : doc),
     get_document st "pf_watchlist" id = Some item →
     item !! "symbol" ≠ Some (VStr symbol) →
     get_document r.2 "pf_watchlist" id = Some item) ∧
  (∀ id (item : doc),
     get_document r.2 "pf_watchlist" id = Some item →
     get_document st "pf_watchlist" id = Some item) ∧
  (∀ c, c ≠ "pf_watchlist" → coll r.2 c = coll st c).
Proof.
  intros r. subst r. unfold remove_from_watchlist.
  rewrite query_documents_unlimited, remove_loop_entries. cbn [fst snd].
  set (es := sort _ _).
  assert (∀ id (item : doc), coll st "pf_watchlist" !! id = Some item →
            (id ∈ es.*1 ↔ item !! "symbol" = Some (VStr symbol))) as Hes.
  { intros id item Hl. subst es. rewrite sort_perm. split.
    - intros ([id' item'] & -> & Hin)%list_elem_of_fmap.
      apply elem_of_selection in Hin as [Hl' Hs]. cbn [fst snd] in *.
      rewrite Hl in Hl'. injection Hl' as <-. by apply selected_symbol in Hs.
    - intros Hs. apply list_elem_of_fmap. exists (id, item). split; [done|].
      apply elem_of_selection. split; [done|]. by apply selected_symbol. }
  assert (∀ id, get_document
                  (foldl (λ s e, delete_document s "pf_watchlist" e.1) st es)
                  "pf_watchlist" id
                = if decide (id ∈ es.*1) then None
                  else coll st "pf_watchlist" !! id) as Hget.
  { intros id. unfold get_document.
    rewrite coll_delete_entries, decide_True by done. apply lookup_delete_entries. }
  split; [done|]. split; [|split; [|split]].
  - intros (id & item & Hl & Hs). rewrite Hget in Hl.
    destruct (decide (id ∈ es.*1)) as [|Hout]; [done|].
    apply Hout. by apply (Hes id item).
  - intros id item Hl Hs. rewrite Hget.
    destruct (decide (id ∈ es.*1)) as [Hin|]; [|done].
    by apply (Hes id item Hl) in Hin.
  - intros id item Hl. rewrite Hget in Hl. by destruct (decide _).
  - intros c Hc. by rewrite coll_delete_entries, decide_False.
Qed.

(** X18.  [get_watchlist] lists the items lowest priority number
    first, and shows every item that has a priority (an item without
    the ordering field is left out by the ordered query). *)
Theorem get_watchlist_by_priority st :
  (∀ id (item : doc) v,
     get_document st "pf_watchlist" id = Some item → item !! "priority" = Some v →
     ∃ p, v = VInt p) →
  StronglySorted (λ a b : doc, key_of int_key "priority" a ≤ key_of int_key "priority" b)
                 (get_watchlist st) ∧
  ∀ (d : doc),
    d ∈ get_watchlist st ↔
    ∃ id item p, get_document st "pf_watchlist" id = Some item ∧
                 item !! "priority" = Some (VInt p) ∧
                 d = <["id" := VStr id]> item.
Proof.
  intros Hint. unfold get_watchlist. split.
  - apply (query_documents_sorted int_key int_key_compare); [done|].
    intros id item v Hl Hv. destruct (Hint id item v Hl Hv) as [p ->]. by exists p.
  - intros d. rewrite elem_of_query_documents. unfold get_document, with_id. split.
    + intros (id & item & Hl & -> & Hs). apply selected_spec in Hs as [_ [v Hv]].
      cbn [snd] in Hv. destruct (Hint id item v Hl Hv) as [p ->].
      by exists id, item, p.
    + intros (id & item & p & Hl & Hp & ->). exists id, item.
      split; [done|]. split; [done|]. apply selected_spec. split; [done|].
      cbn [snd]. by rewrite Hp.
Qed.

End Watchlist.

(** A watchlist with two items for MSFT and one for AAPL. *)
Definition watch (symbol : string) (priority : Z) : doc :=
  WatchlistItem.dict (WatchlistItem.Mk symbol "system" None priority
                                       1793750400000000 1793750400000000).

Definition watchlist_store : store :=
  {[ "pf_watchlist" :=
       <["MSFT_20261101_093000" := watch "MSFT" 3]>
         (<["AAPL_20261102_093000" := watch "AAPL" 1]>
            {[ "MSFT_20261103_093000" := watch "MSFT" 2 ]}) ]}.

Lemma add_to_watchlist_adds_once_witness :
  (WatchlistManager.add_to_watchlist
     watchlist_store example_clock "NVDA" "system" None 2).1 = true.
Proof.
  refine (proj1 (add_to_watchlist_adds_once
                   watchlist_store example_clock "NVDA" "system" None 2 _ _)).
  - intros H. apply listed_query in H. apply H. compute_done.
  - lia.
Defined.

Lemma get_watchlist_by_priority_witness :
  StronglySorted (λ a b : doc, key_of int_key "priority" a ≤ key_of int_key "priority" b)
                 (WatchlistManager.get_watchlist watchlist_store).
Proof.
  refine (proj1 (get_watchlist_by_priority watchlist_store _)).
  intros id item v Hl Hv.
  assert (map_Forall (λ _ (item : doc),
                        match item !! "priority" with
                        | Some (VInt _) | None => true
                        | Some _ => false
                        end = true)
                     (coll watchlist_store "pf_watchlist")) as Hall by compute_done.
  specialize (Hall id item Hl). cbv beta in Hall. rewrite Hv in Hall.
  destruct v; try done. by eexists.
Defined.

(** ** strategy-engine/main.py: what a generated signal looks like *)
Section SignalRules.
Import StrategyEngine.

Lemma of_value_inv v t :
  RecommendationType.of_value v = Some t → v = VStr (RecommendationType.value t).
Proof.
  destruct v as [| | | |s|]; try done. unfold RecommendationType.of_value.
  intros H.
  repeat (destruct s as [|[[] [] [] [] [] [] [] []] s]; try done);
    by injection H as <-.
Qed.

(** Everything [generate_trade_signal] has established by the time it
    returns a signal. *)
Lemma generate_trade_signal_inv st clk (r : doc) signal :
  generate_trade_signal st clk r = Some signal →
  ∃ confidence price quantity,
    r !! "symbol" = Some (VStr (TradeSignal.symbol signal)) ∧
    r !! "recommendation"
      = Some (VStr (RecommendationType.value (TradeSignal.signal_type signal))) ∧
    r !! "confidence_score" = Some confidence ∧
    get_current_price st (VStr (TradeSignal.symbol signal)) = Some price ∧
    Decimal.is_zero price = false ∧
    match TradeSignal.signal_type signal with
    | RecommendationType.BUY =>
        apply_buy_filters st r = true ∧
        quantity = RiskManager.calculate_position_size st price confidence
    | RecommendationType.SELL =>
        apply_sell_filters st r = true ∧
        ∃ position rest,
          query_documents st "pf_positions_active"
                          (symbol_filters (VStr (TradeSignal.symbol signal))) None None
          = position :: rest ∧
          position !! "quantity" = Some (VInt quantity)
    | RecommendationType.HOLD => False
    end ∧
    TradeSignal.quantity signal = Z.abs quantity ∧
    TradeSignal.price_limit signal = Some price ∧
    TradeSignal.stop_loss signal
      = Some (RiskManager.calculate_stop_loss price (TradeSignal.signal_type signal)) ∧
    TradeSignal.take_profit signal
      = Some (RiskManager.calculate_take_profit price (TradeSignal.signal_type signal)) ∧
    Py.to_float confidence = Some (TradeSignal.confidence signal) ∧
    TradeSignal.expires_at signal = Some (now clk + Datetime.hours 24) ∧
    TradeSignal.created_at signal = utcnow clk.
Proof.
  unfold generate_trade_signal. intros H.
  destruct (r !! "symbol") as [symbol|] eqn:Hs; [|done].
  destruct (r !! "recommendation") as [rv|] eqn:Hr; [|done].
  destruct (RecommendationType.of_value rv) as [rec_type|] eqn:Hty; [|done].
  apply of_value_inv in Hty as ->.
  destruct (r !! "confidence_score") as [confidence|] eqn:Hc; [|done].
  destruct (get_current_price st symbol) as [price|] eqn:Hp; [|done].
  destruct (Decimal.is_zero price) eqn:Hz; [done|].
  destruct rec_type.
  - destruct (apply_buy_filters st r) eqn:Hf; cbn [negb] in H; [|done].
    destruct (Py.format_1f confidence) as [text|]; [|done].
    destruct symbol as [| | | |sym|]; try done. cbn [as_str as_int] in H.
    destruct (Py.to_float confidence) as [conf|] eqn:Hconf; [|done].
    injection H as <-. cbn.
    exists confidence, price, (RiskManager.calculate_position_size st price confidence).
    by repeat split.
  - done.
  - destruct (apply_sell_filters st r) eqn:Hf; cbn [negb] in H; [|done].
    destruct (query_documents st "pf_positions_active" _ None None)
      as [|position rest] eqn:Hq; [done|].
    destruct (position !! "quantity") as [qv|] eqn:Hqv; [|done].
    destruct (Py.format_1f confidence) as [text|]; [|done].
    destruct symbol as [| | | |sym|]; try done. cbn [as_str] in H.
    destruct qv as [|q| | | |]; try done. cbn [as_int] in H.
    destruct (Py.to_float confidence) as [conf|] eqn:Hconf; [|done].
    injection H as <-. cbn.
    exists confidence, price, q. repeat split; try done.
    by exists position, rest.
Qed.

Lemma calculate_position_size_min st price confidence :
  1 ≤ RiskManager.calculate_position_size st price confidence.
Proof.
  unfold RiskManager.calculate_position_size.
  destruct (RiskManager.shares_for _ _ _) as [n|] eqn:E; cbn [from_option id]; [|done].
  unfold RiskManager.shares_for in E.
  repeat (case_match; try done). injection E as <-. lia.
Qed.

(** X19.  A signal is only ever generated for a buy or a sell
    recommendation, never for a hold, and it carries: the
    recommendation's symbol and type; the current price (not zero) as
    its price limit; the stop loss and take profit computed from that
    price; an expiry 24 hours after the local time of the call
    ([datetime.now()]), while its creation time is the UTC time of the
    call ([datetime.utcnow()]), so that the two are 24 hours apart only
    where local time is UTC; a quantity that is never negative and is
    at least one share for a buy. *)
Theorem generated_signal_shape st clk (r : doc) signal :
  generate_trade_signal st clk r = Some signal →
  TradeSignal.signal_type signal ≠ RecommendationType.HOLD ∧
  r !! "symbol" = Some (VStr (TradeSignal.symbol signal)) ∧
  r !! "recommendation"
    = Some (VStr (RecommendationType.value (TradeSignal.signal_type signal))) ∧
  (∃ price,
     get_current_price st (VStr (TradeSignal.symbol signal)) = Some price ∧
     Decimal.is_zero price = false ∧
     TradeSignal.price_limit signal = Some price ∧
     TradeSignal.stop_loss signal
       = Some (RiskManager.calculate_stop_loss price (TradeSignal.signal_type signal)) ∧
     TradeSignal.take_profit signal
       = Some (RiskManager.calculate_take_profit price
                 (TradeSignal.signal_type signal))) ∧
  TradeSignal.expires_at signal = Some (now clk + Datetime.hours 24) ∧
  TradeSignal.created_at signal = utcnow clk ∧
  0 ≤ TradeSignal.quantity signal ∧
  (TradeSignal.signal_type signal = RecommendationType.BUY →
   1 ≤ TradeSignal.quantity signal).
Proof.
  intros H.
  destruct (generate_trade_signal_inv _ _ _ _ H)
    as (confidence & price & quantity & Hs & Hr & Hc & Hp & Hz & Hty & Hq & Hl & Hsl
        & Htp & Hconf & He & Hcr).
  split. { intros E. by rewrite E in Hty. }
  split; [done|]. split; [done|]. split; [by exists price|]. split; [done|].
  split; [done|]. rewrite Hq. split; [lia|]. intros E. rewrite E in Hty. destruct Hty as [_ ->].
  pose proof (calculate_position_size_min st price confidence). lia.
Qed.

(** X20.  Where no active position holds a float as its quantity
    (pydantic would turn such a quantity into the signal's int field,
    a coercion that is not modelled), a sell signal sells what is held:
    its quantity is the (absolute) quantity of an active position of
    the symbol, one whose market value is positive; without an active
    position of the symbol, a sell recommendation yields no signal. *)
Theorem sell_signal_sells_held_quantity st clk (r : doc) :
  (∀ pid (d : doc) x, get_document st "pf_positions_active" pid = Some d →
                      d !! "quantity" ≠ Some (VFloat x)) →
  (∀ signal,
     generate_trade_signal st clk r = Some signal →
     TradeSignal.signal_type signal = RecommendationType.SELL →
     ∃ pid (position : doc) quantity,
       get_document st "pf_positions_active" pid = Some position ∧
       position !! "symbol" = Some (VStr (TradeSignal.symbol signal)) ∧
       position !! "status" = Some (VStr "active") ∧
       position !! "quantity" = Some (VInt quantity) ∧
       TradeSignal.quantity signal = Z.abs quantity ∧
       Decimal.ltb (Decimal.of_int 0)
                   (RiskManager.get_position_value
                      st (VStr (TradeSignal.symbol signal))) = true) ∧
  (∀ sym,
     r !! "symbol" = Some (VStr sym) →
     r !! "recommendation" = Some (VStr "sell") →
     (∀ pid (d : doc), get_document st "pf_positions_active" pid = Some d →
                       d !! "symbol" = Some (VStr sym) →
                       d !! "status" ≠ Some (VStr "active")) →
     generate_trade_signal st clk r = None).
Proof.
  intros _. split.
  - intros signal H Hty.
    destruct (generate_trade_signal_inv _ _ _ _ H)
      as (confidence & price & quantity & Hs & Hr & Hc & Hp & Hz & Hsell & Hq & _).
    rewrite Hty in Hsell. destruct Hsell as (Hf & position & rest & Hquery & Hqty).
    pose proof Hquery as Hhead.
    apply query_documents_head in Hhead as (pid & stored & Hl & -> & Hsel).
    apply (selected_position_iff _ (pid, stored)) in Hsel as [Hsym Hact].
    cbn [snd] in Hsym, Hact.
    exists pid, stored, quantity. split; [done|]. split; [done|]. split; [done|].
    split; [by rewrite lookup_insert_ne in Hqty|]. split; [done|].
    unfold apply_sell_filters in Hf. rewrite Hs in Hf.
    by destruct (Decimal.ltb _ _).
  - intros sym Hs Hr Hnone.
    destruct (generate_trade_signal st clk r) as [signal|] eqn:H; [|done].
    destruct (generate_trade_signal_inv _ _ _ _ H)
      as (confidence & price & quantity & Hs' & Hr' & Hc & Hp & Hz & Hty & _).
    rewrite Hs in Hs'. injection Hs' as Hsym.
    rewrite Hr in Hr'. injection Hr' as Hv.
    destruct (TradeSignal.signal_type signal); try done.
    destruct Hty as (_ & position & rest & Hquery & _).
    rewrite <- Hsym in Hquery. unfold symbol_filters in Hquery.
    change [("symbol", OpEq, VStr sym); ("status", OpEq, VStr "active")]
      with (PortfolioManager.position_filters sym) in Hquery.
    by rewrite (no_active_position_query st _ Hnone) in Hquery.
Qed.

Lemma threshold_value :
  (Float.value RiskManager.min_confidence_threshold == 80)%Q.
Proof. vm_compute. reflexivity. Qed.

(** X21.  A buy recommendation whose confidence is below 80, or is not
    a number at all, yields no signal, whatever the portfolio. *)
Theorem buy_below_threshold_yields_no_signal st clk (r : doc) confidence :
  r !! "recommendation" = Some (VStr "buy") →
  r !! "confidence_score" = Some confidence →
  match Py.num_value confidence with
  | Some q => (q < 80)%Q
  | None => True
  end →
  apply_buy_filters st r = false ∧ generate_trade_signal st clk r = None.
Proof.
  intros Hr Hc Hlow.
  assert (apply_buy_filters st r = false) as Hf.
  { unfold apply_buy_filters, apply_buy_filters_body.
    destruct (r !! "symbol"); [|done]. rewrite Hc.
    unfold Py.lt, Py.num_cmp.
    destruct (Py.num_value confidence) as [q|]; [|done].
    cbn [Py.num_value from_option id].
    assert (Qcompare q (Float.value RiskManager.min_confidence_threshold) = Lt) as ->.
    { apply Qlt_alt. by rewrite threshold_value. }
    done. }
  split; [done|].
  destruct (generate_trade_signal st clk r) as [signal|] eqn:H; [|done].
  destruct (generate_trade_signal_inv _ _ _ _ H)
    as (c & price & quantity & _ & Hr' & _ & _ & _ & Hty & _).
  rewrite Hr in Hr'. injection Hr' as Hv.
  destruct (TradeSignal.signal_type signal); try done.
  destruct Hty as [Hf' _]. congruence.
Qed.

(** X22.  A recommendation that is neither "buy" nor "sell" (a hold, a
    missing or an unknown kind) yields no signal. *)
Theorem only_buy_and_sell_yield_signals st clk (r : doc) :
  r !! "recommendation" ≠ Some (VStr "buy") →
  r !! "recommendation" ≠ Some (VStr "sell") →
  generate_trade_signal st clk r = None.
Proof.
  intros Hb Hs.
  destruct (generate_trade_signal st clk r) as [signal|] eqn:H; [|done].
  destruct (generate_trade_signal_inv _ _ _ _ H)
    as (c & price & quantity & _ & Hr & _ & _ & _ & Hty & _).
  by destruct (TradeSignal.signal_type signal).
Qed.

(** X23.  With 20 or more active positions no buy signal is generated
    (the portfolio limit), while sell signals are not affected by it. *)
Theorem position_limit_blocks_buys st clk (r : doc) :
  (20 ≤ length (query_documents st "pf_positions_active"
                                [("status", OpEq, VStr "active")] None None))%nat →
  RiskManager.check_portfolio_risk_limits st = false ∧
  apply_buy_filters st r = false ∧
  ∀ signal, generate_trade_signal st clk r = Some signal →
            TradeSignal.signal_type signal = RecommendationType.SELL.
Proof.
  intros Hn.
  assert (RiskManager.check_portfolio_risk_limits st = false) as Hlim.
  { unfold RiskManager.check_portfolio_risk_limits.
    destruct (Z.leb_spec 20 (Z.of_nat (length
      (query_documents st "pf_positions_active" [("status", OpEq, VStr "active")]
                       None None)))); [done|lia]. }
  assert (apply_buy_filters st r = false) as Hf.
  { unfold apply_buy_filters, apply_buy_filters_body. rewrite Hlim.
    by repeat case_match. }
  split; [done|]. split; [done|]. intros signal H.
  destruct (generate_trade_signal_inv _ _ _ _ H)
    as (c & price & quantity & _ & _ & _ & _ & _ & Hty & _).
  destruct (TradeSignal.signal_type signal); try done.
  destruct Hty as [Hf' _]. congruence.
Qed.

(** X24.  [calculate_position_size] never sizes a position below one
    share, whatever the price, the confidence and the portfolio (also
    when the computation raises), and [get_portfolio_value] is never
    zero: a portfolio whose positions carry no market value counts as
    10000. *)
Theorem position_size_and_portfolio_value_floors st :
  (∀ price confidence, 1 ≤ RiskManager.calculate_position_size st price confidence) ∧
  Decimal.is_zero (RiskManager.get_portfolio_value st) = false ∧
  ((∀ pid (d : doc),
      get_document st "pf_positions_active" pid = Some d →
      d !! "status" = Some (VStr "active") →
      Py.truthy (default (VInt 0) (d !! "market_value")) = false) →
   RiskManager.get_portfolio_value st = Decimal.of_int 10000).
Proof.
  split; [apply calculate_position_size_min|]. unfold RiskManager.get_portfolio_value.
  split.
  - destruct (RiskManager.sum_market_values _ _) as [total|]; [|done].
    by destruct (Decimal.is_zero total) eqn:E.
  - intros Hnone.
    assert (∀ positions total,
              Forall (λ p : doc, Py.truthy (default (VInt 0) (p !! "market_value")) = false)
                     positions →
              RiskManager.sum_market_values total positions = Some total) as Hsum.
    { induction positions as [|p ps IH]; intros total Hall; [done|].
      apply Forall_cons in Hall as [Hp Hps]. cbn [RiskManager.sum_market_values].
      rewrite Hp. by apply IH. }
    rewrite Hsum; [done|]. apply Forall_forall. intros p Hp.
    apply query_documents_elem in Hp as (pid & d & Hl & -> & Hsel).
    apply selected_spec in Hsel as [Hm _]. apply Forall_cons in Hm as [Hm _].
    apply matches_eq_str in Hm. cbn [snd] in Hm.
    rewrite lookup_insert_ne by done. by apply (Hnone pid d).
Qed.

End SignalRules.

(** A recommendation for AAPL of a given kind and confidence, and a
    portfolio of twenty active positions. *)
Definition advice (kind : string) (confidence : pyval) : doc :=
  list_to_map [("symbol", VStr "AAPL"); ("recommendation", VStr kind);
               ("confidence_score", confidence); ("model_version", VStr "v1");
               ("created_at", VTime 1793750000000000);
               ("updated_at", VTime 1793750000000000)].

Definition crowded_store : store :=
  <["pf_positions_active" :=
      list_to_map ((λ n : nat, ("POS_" +:+ pretty n,
                                ({[ "status" := VStr "active" ]} : doc)))
                     <$> seq 0 20)]> price_history.

(** The ledger of [held_store] once its position has been valued. *)
Definition valued_store : store :=
  PortfolioManager.update_position_values held_store example_clock.

Lemma generated_signal_shape_witness :
  ∃ signal,
    StrategyEngine.generate_trade_signal
      price_history example_clock (advice "buy" (VFloat (Float.lit 85 1))) = Some signal ∧
    TradeSignal.expires_at signal = Some (now example_clock + Datetime.hours 24) ∧
    TradeSignal.created_at signal = utcnow example_clock ∧
    1 ≤ TradeSignal.quantity signal.
Proof.
  assert (is_Some (StrategyEngine.generate_trade_signal
                     price_history example_clock (advice "buy" (VFloat (Float.lit 85 1)))))
    as [signal E] by compute_done.
  destruct (generated_signal_shape _ _ _ _ E) as (_ & _ & Hr & _ & He & Hcr & _ & Hq).
  exists signal. split; [exact E|]. split; [exact He|]. split; [exact Hcr|]. apply Hq.
  assert (advice "buy" (VFloat (Float.lit 85 1)) !! "recommendation" = Some (VStr "buy"))
    as Hb by compute_done.
  rewrite Hb in Hr. injection Hr as Hv.
  by destruct (TradeSignal.signal_type signal).
Defined.

Lemma sell_signal_sells_held_quantity_witness :
  ∃ signal pid (position : doc) quantity,
    StrategyEngine.generate_trade_signal
      valued_store example_clock (advice "sell" (VFloat (Float.lit 90 1))) = Some signal ∧
    get_document valued_store "pf_positions_active" pid = Some position ∧
    position !! "quantity" = Some (VInt quantity) ∧
    TradeSignal.quantity signal = Z.abs quantity.
Proof.
  assert (TradeSignal.signal_type
            <$> StrategyEngine.generate_trade_signal
                  valued_store example_clock (advice "sell" (VFloat (Float.lit 90 1)))
          = Some RecommendationType.SELL) as Hty by compute_done.
  destruct (StrategyEngine.generate_trade_signal _ _ _) as [signal|] eqn:E;
    [|discriminate Hty].
  injection Hty as Hty.
  assert (map_Forall (λ _ (d : doc),
                        match d !! "quantity" with Some (VFloat _) => false | _ => true end
                        = true)
                     (coll valued_store "pf_positions_active")) as Hall by compute_done.
  assert (∀ pid (d : doc) x,
            get_document valued_store "pf_positions_active" pid = Some d →
            d !! "quantity" ≠ Some (VFloat x)) as Hints.
  { intros pid d x Hl Hq. specialize (Hall pid d Hl). cbv beta in Hall.
    rewrite Hq in Hall. discriminate Hall. }
  destruct (proj1 (sell_signal_sells_held_quantity
                     valued_store example_clock
                     (advice "sell" (VFloat (Float.lit 90 1))) Hints)
                  signal E Hty)
    as (pid & position & quantity & Hl & _ & _ & Hq & Habs & _).
  exists signal, pid, position, quantity.
  split; [reflexivity|]. split; [exact Hl|]. split; [exact Hq | exact Habs].
Defined.

Lemma buy_below_threshold_yields_no_signal_witness :
  StrategyEngine.generate_trade_signal
    price_history example_clock (advice "buy" (VFloat (Float.lit 799 10))) = None.
Proof.
  refine (proj2 (buy_below_threshold_yields_no_signal
                   price_history example_clock (advice "buy" (VFloat (Float.lit 799 10)))
                   (VFloat (Float.lit 799 10)) _ _ _)); compute_done.
Defined.

Lemma only_buy_and_sell_yield_signals_witness :
  StrategyEngine.generate_trade_signal
    price_history example_clock (advice "hold" (VFloat (Float.lit 95 1))) = None.
Proof.
  refine (only_buy_and_sell_yield_signals
            price_history example_clock (advice "hold" (VFloat (Float.lit 95 1))) _ _);
    compute_done.
Defined.

Lemma position_limit_blocks_buys_witness :
  StrategyEngine.apply_buy_filters crowded_store (advice "buy" (VFloat (Float.lit 95 1)))
  = false.
Proof.
  refine (proj1 (proj2 (position_limit_blocks_buys
                          crowded_store example_clock
                          (advice "buy" (VFloat (Float.lit 95 1))) _))).
  compute_done.
Defined.

(** ** data-ingestion/orchestrator/main.py: the budget over a run of calls *)

(** One call of [call_service_endpoint] as a stage issues it: the
    instant it is made, its arguments, and what the network makes of
    the request. *)
Record request := Request {
  at_time : Z;
  to_provider : DataProvider.t;
  endpoint : string;
  for_symbol : option string;
  outcome : string → bool
}.

Definition serve (self : OrchestrationEngine.t) (r : request) : bool * OrchestrationEngine.t :=
  OrchestrationEngine.call_service_endpoint
    (outcome r) self (at_time r) (to_provider r) (endpoint r) (for_symbol r).

(** The engine after a sequence of calls. *)
Definition run (self : OrchestrationEngine.t) (requests : list request)
  : OrchestrationEngine.t :=
  foldl (λ self r, (serve self r).2) self requests.

#[global] Instance data_provider_eq_dec : EqDecision DataProvider.t.
Proof. solve_decision. Defined.

Section Budget.
Import OrchestrationEngine.

Definition within_budget (self : t) : Prop :=
  ∀ p, 0 ≤ current_count self p ≤ quota p.

Lemma within_budget_reset self now :
  within_budget self → within_budget (reset_api_counters_if_needed self now).
Proof.
  intros H. unfold reset_api_counters_if_needed. destruct (1 <=? _); [|done].
  intros p. rewrite count_after_clear. pose proof (quota_pos p). lia.
Qed.

Lemma within_budget_serve self r :
  within_budget self → within_budget (serve self r).2.
Proof.
  intros H. unfold serve, call_service_endpoint. rewrite can_make_api_call_eq.
  pose proof (within_budget_reset self (at_time r) H) as H'.
  set (self' := reset_api_counters_if_needed self (at_time r)) in *.
  destruct (Z.ltb_spec (current_count self' (to_provider r)) (quota (to_provider r)))
    as [Hlt|Hge]; cbn [negb]; [|done].
  destruct (SERVICE_URLS (to_provider r)); [|done].
  destruct (outcome r _); [|done]. cbn [snd].
  intros p. destruct (decide (to_provider r = p)) as [<-|Hne].
  - rewrite count_increment_same. specialize (H' (to_provider r)). lia.
  - by rewrite count_increment_other.
Qed.

Lemma days_between_lt now last :
  Datetime.days_between now last < 1 ↔ now < last + Datetime.day_us.
Proof.
  unfold Datetime.days_between.
  assert (0 < Datetime.day_us) as Hpos by done. split.
  - intros H. destruct (Z.lt_ge_cases now (last + Datetime.day_us)) as [|Hge]; [done|].
    assert (1 ≤ (now - last) / Datetime.day_us); [|lia].
    apply Z.div_le_lower_bound; lia.
  - intros H. apply Z.div_lt_upper_bound; lia.
Qed.

(** X25.  Over calls of [call_service_endpoint] made one after another
    (each returns before the next begins, as within one stage; any
    providers, endpoints, instants and request outcomes, in any order),
    no provider's counter ever exceeds its daily quota of
    100/250/100/500 or drops below zero.  Calls that overlap are not
    covered: the call awaits its request between the budget check and
    the increment, so two stages running at once can both pass the
    check on the last free call. *)
Theorem counters_stay_within_budget self requests :
  within_budget self → within_budget (run self requests).
Proof.
  revert self. induction requests as [|r requests IH]; intros self H; [done|].
  cbn [run foldl]. apply IH. by apply within_budget_serve.
Qed.

(** X26.  The counters are cleared when, and only when, a budget check
    comes at least 24 hours after the last reset (a rolling window that
    restarts at the instant of the check, not at midnight); earlier
    than that, or with a clock that went backwards, the engine is left
    as it is. *)
Theorem counters_reset_after_24_hours self now :
  (last_reset self + 24 * 3600 * 1000000 ≤ now →
   reset_api_counters_if_needed self now = Mk ∅ now) ∧
  (now < last_reset self + 24 * 3600 * 1000000 →
   reset_api_counters_if_needed self now = self).
Proof.
  change (24 * 3600 * 1000000) with Datetime.day_us. split.
  - intros H. apply reset_due.
    destruct (Z.lt_ge_cases (Datetime.days_between now (last_reset self)) 1) as [Hlt|];
      [|done].
    apply days_between_lt in Hlt. lia.
  - intros H. apply reset_not_due. by apply days_between_lt.
Qed.

(** X27.  Once a provider's counter has reached its quota, every
    further call for that provider within the window answers False and
    changes nothing, whatever the request would have returned. *)
Theorem exhausted_provider_is_refused self requests p :
  quota p ≤ current_count self p →
  Forall (λ r, to_provider r = p ∧ at_time r < last_reset self + Datetime.day_us)
         requests →
  run self requests = self ∧
  Forall (λ r, serve self r = (false, self)) requests.
Proof.
  intros Hq Hall.
  assert (∀ r, to_provider r = p ∧ at_time r < last_reset self + Datetime.day_us →
               serve self r = (false, self)) as Hstep.
  { intros r [Hp Ht]. unfold serve, call_service_endpoint.
    rewrite can_make_api_call_eq, reset_not_due by by apply days_between_lt.
    rewrite Hp. by destruct (Z.ltb_spec (current_count self p) (quota p)); [lia|]. }
  split.
  - induction Hall as [|r requests Hr Hall IH]; [done|].
    cbn [run foldl]. by rewrite (Hstep r Hr).
  - eapply Forall_impl; [exact Hall|]. exact Hstep.
Qed.

End Budget.

(** ** Service URLs *)
Section Urls.
Import OrchestrationEngine.

Fixpoint has_brace (s : string) : bool :=
  match s with
  | EmptyString => false
  | String c s' => Ascii.eqb c "{" || has_brace s'
  end.

Lemma replace_from_no_brace rep a s :
  has_brace a = false →
  replace_from O "{symbol}" rep (a +:+ s) = (a +:+ replace_from O "{symbol}" rep s)%string.
Proof.
  induction a as [|c a IH]; [done|]. cbn [has_brace]. intros H.
  apply orb_false_iff in H as [Hc Ha].
  change (String c a +:+ s)%string with (String c (a +:+ s)).
  cbn [replace_from String.prefix].
  destruct (ascii_dec "{" c) as [<-|Hne]; [done|].
  by rewrite (IH Ha).
Qed.

Lemma replace_from_placeholder rep s :
  replace_from O "{symbol}" rep ("{symbol}" +:+ s)
  = (rep +:+ replace_from O "{symbol}" rep s)%string.
Proof.
  change ("{symbol}" +:+ s)%string
    with (String "{" (String "s" (String "y" (String "m" (String "b" (String "o"
            (String "l" (String "}" s)))))))).
  cbn [replace_from String.prefix String.length Nat.sub].
  repeat (destruct (ascii_dec _ _); [|done]).
  by destruct s.
Qed.

Lemma replace_from_clean rep s :
  has_brace s = false → replace_from O "{symbol}" rep s = s.
Proof.
  induction s as [|c s IH]; [done|]. cbn [has_brace]. intros H.
  apply orb_false_iff in H as [Hc Hs].
  cbn [replace_from String.prefix].
  destruct (ascii_dec "{" c) as [<-|Hne]; [done|].
  by rewrite (IH Hs).
Qed.

(** X28.  The URL a call posts to is the service's base URL, a slash
    and the endpoint, with the placeholder [{symbol}] replaced by the
    symbol; without a symbol (None or the empty text) the endpoint is
    used as it is written, placeholder included. *)
Theorem endpoint_url_substitutes base_url before after sym :
  has_brace base_url = false → has_brace before = false → has_brace after = false →
  sym ≠ ""%string →
  endpoint_url base_url (before +:+ "{symbol}" +:+ after) (Some sym)
  = (base_url +:+ "/" +:+ before +:+ sym +:+ after)%string ∧
  endpoint_url base_url (before +:+ "{symbol}" +:+ after) None
  = (base_url +:+ "/" +:+ before +:+ "{symbol}" +:+ after)%string ∧
  endpoint_url base_url (before +:+ "{symbol}" +:+ after) (Some ""%string)
  = (base_url +:+ "/" +:+ before +:+ "{symbol}" +:+ after)%string.
Proof.
  intros Hb Hp Ha Hs. split; [|done]. unfold endpoint_url.
  destruct sym as [|c sym]; [done|].
  rewrite replace_from_no_brace by done.
  rewrite (replace_from_no_brace _ "/") by done.
  rewrite replace_from_no_brace by done.
  rewrite replace_from_placeholder. by rewrite replace_from_clean.
Qed.

End Urls.

Lemma counters_stay_within_budget_witness :
  within_budget
    (run (OrchestrationEngine.Mk {[ "finnhub" := 249 ]} 1793779200000000)
         [Request 1793779201000000 DataProvider.FINNHUB "ingest/quote/{symbol}"
                  (Some "AAPL") (λ _, true);
          Request 1793779202000000 DataProvider.FINNHUB "ingest/company-news/{symbol}"
                  (Some "AAPL") (λ _, true)]).
Proof.
  apply counters_stay_within_budget.
  intros p. destruct p; vm_compute; split; discriminate.
Defined.

Lemma exhausted_provider_is_refused_witness :
  run (OrchestrationEngine.Mk {[ "finnhub" := 250 ]} 1793779200000000)
      [Request 1793779201000000 DataProvider.FINNHUB "ingest/quote/{symbol}"
               (Some "AAPL") (λ _, true)]
  = OrchestrationEngine.Mk {[ "finnhub" := 250 ]} 1793779200000000.
Proof.
  refine (proj1 (exhausted_provider_is_refused
                   (OrchestrationEngine.Mk {[ "finnhub" := 250 ]} 1793779200000000)
                   _ DataProvider.FINNHUB _ _)).
  - vm_compute. discriminate.
  - repeat constructor.
Defined.

Lemma endpoint_url_substitutes_witness :
  OrchestrationEngine.endpoint_url
    "http://finnhub-service:8080" "ingest/quote/{symbol}" (Some "AAPL")
  = "http://finnhub-service:8080/ingest/quote/AAPL".
Proof.
  refine (proj1 (endpoint_url_substitutes
                   "http://finnhub-service:8080" "ingest/quote/" "" "AAPL" _ _ _ _));
    done.
Defined.

(** ** strategy-engine/main.py: what a run leaves in the store *)
Section SignalStore.
Import StrategyEngine.

(** No generated signal can be stored: it carries its price limit as
    a Decimal. *)
Lemma generated_signal_refused st clk (r : doc) signal :
  generate_trade_signal st clk r = Some signal →
  encodable (TradeSignal.dict signal) = false.
Proof.
  intros H.
  destruct (generate_trade_signal_inv _ _ _ _ H)
    as (confidence & price & quantity & _ & _ & _ & _ & _ & _ & _ & Hl & _).
  by apply (trade_signal_dict_refused signal price).
Qed.

Lemma process_loop_keeps_store clk (recs : list doc) :
  ∀ st signals processed, (process_loop st clk recs signals processed).2 = st.
Proof.
  induction recs as [|r recs IH]; intros st signals processed;
    cbn [process_loop]; [reflexivity|].
  destruct (r !! "symbol") as [symbol|]; [|reflexivity].
  destruct (match symbol with
            | VStr s => bool_decide (s ∈ processed)
            | _ => false
            end); [apply IH|].
  destruct (generate_trade_signal st clk r) as [signal|] eqn:Hgen; [|apply IH].
  rewrite upsert_document_refused by apply (generated_signal_refused _ _ _ _ Hgen).
  apply IH.
Qed.

(** X29.  A run of [process_ml_recommendations] leaves the store exactly
    as it was: each signal it generates carries its price limit as a
    Decimal, the store refuses the record, and so none of the signals
    it returns is persisted; nothing else is written or deleted
    either. *)
Theorem process_ml_recommendations_persists_nothing st clk :
  (process_ml_recommendations st clk).2 = st.
Proof.
  unfold process_ml_recommendations.
  destruct (get_recent_ml_recommendations st clk) as [|r0 recs]; [reflexivity|].
  pose proof (process_loop_keeps_store clk (rev (r0 :: recs)) st [] ∅) as H.
  by destruct (process_loop st clk (rev (r0 :: recs)) [] ∅) as [res st'].
Qed.

End SignalStore.

(** ** strategy-engine/main.py: stop loss and take profit levels *)
Section Levels.

Lemma ndigits_fuel_bound fuel : ∀ c k, 1 ≤ k → 0 ≤ c < 10 ^ k → ndigits_fuel fuel c ≤ k.
Proof.
  induction fuel as [|fuel IH]; intros c k Hk Hc; cbn [ndigits_fuel]; [done|].
  destruct (Z.ltb_spec c 10) as [|Hge]; [done|].
  assert (2 ≤ k) as Hk2.
  { destruct (Z.eq_dec k 1) as [->|]; [|lia]. change (10 ^ 1) with 10 in Hc. lia. }
  specialize (IH (c / 10) (k - 1)).
  assert (10 ^ k = 10 * 10 ^ (k - 1)) as Hpow.
  { rewrite <- Z.pow_succ_r by lia. f_equal. lia. }
  assert (ndigits_fuel fuel (c / 10) ≤ k - 1); [|lia].
  apply IH; [lia|]. split; [apply Z.div_pos; lia|].
  apply Z.div_lt_upper_bound; lia.
Qed.

(** Multiplying a price of at most 25 digits by a three-digit factor
    of two decimals is exact. *)
Lemma mul_hundredths (p : Decimal.t) (k : N) :
  Decimal.mag p < 10 ^ 25 → (k < 1000)%N →
  Decimal.mul p (Decimal.Mk false k (-2))
  = Decimal.Mk (Decimal.neg p) (Decimal.coef p * k)%N (Decimal.exp p - 2).
Proof.
  intros Hp Hk. unfold Decimal.mul, Decimal.fix_, Decimal.mag in *.
  cbn [Decimal.neg Decimal.coef Decimal.exp].
  assert (ndigits (Z.of_N (Decimal.coef p) * Z.of_N k) ≤ Decimal.prec) as Hn.
  { unfold ndigits. apply (ndigits_fuel_bound _ _ 28); [done|].
    change (10 ^ 28) with (10 ^ 25 * 1000). nia. }
  destruct (Z.leb_spec (ndigits (Z.of_N (Decimal.coef p) * Z.of_N k)) Decimal.prec);
    [|lia].
  rewrite xorb_false_r. f_equal; lia.
Qed.

Lemma value_hundredths s (c k : N) e :
  (Decimal.value (Decimal.Mk s (c * k)%N (e - 2))
   == Decimal.value (Decimal.Mk s c e) * (Z.of_N k # 100))%Q.
Proof.
  unfold Decimal.value, Decimal.signed, Decimal.mag.
  cbn [Decimal.neg Decimal.coef Decimal.exp].
  set (m := Z.of_N c). set (n := Z.of_N k).
  assert ((if s then - Z.of_N (c * k) else Z.of_N (c * k))
          = (if s then - m else m) * n) as ->.
  { subst m n. destruct s; lia. }
  set (x := if s then - m else m).
  destruct (Z.leb_spec 0 (e - 2)) as [H2|H2]; destruct (Z.leb_spec 0 e) as [H0|H0];
    try lia.
  - assert (10 ^ e = 10 ^ (e - 2) * 100) as ->.
    { change 100 with (10 ^ 2). rewrite <- Z.pow_add_r by lia. f_equal. lia. }
    unfold Qeq, Qmult, inject_Z. cbn [Qnum Qden]. lia.
  - assert (0 < 10 ^ (- (e - 2))) as Hpos by (apply Z.pow_pos_nonneg; lia).
    assert (10 ^ (- (e - 2)) * 10 ^ e = 100) as Hpow.
    { rewrite <- Z.pow_add_r by lia. replace (- (e - 2) + e) with 2 by lia. done. }
    unfold Qeq, Qmult, inject_Z. cbn [Qnum Qden].
    rewrite Z2Pos.id by done. change (Z.pos (1 * 100)) with 100.
    rewrite <- Hpow. ring.
  - assert (0 < 10 ^ (- e)) as Hpos by (apply Z.pow_pos_nonneg; lia).
    assert (10 ^ (- (e - 2)) = 10 ^ (- e) * 100) as Hpow.
    { change 100 with (10 ^ 2). rewrite <- Z.pow_add_r by lia. f_equal. lia. }
    unfold Qeq, Qmult, inject_Z. cbn [Qnum Qden].
    rewrite Pos2Z.inj_mul, !Z2Pos.id by lia. rewrite Hpow. lia.
Qed.

(** X30.  For an entry price of at most 25 significant digits the
    levels are exact: a buy gets its stop loss 8% below and its take
    profit 15% above the entry price, a sell 8% above and 15% below,
    and for a hold both levels are the entry price itself. *)
Theorem stop_loss_and_take_profit_levels (entry_price : Decimal.t) :
  Decimal.mag entry_price < 10 ^ 25 →
  let levels t := (Decimal.value (RiskManager.calculate_stop_loss entry_price t),
                   Decimal.value (RiskManager.calculate_take_profit entry_price t)) in
  let price := Decimal.value entry_price in
  ((levels RecommendationType.BUY).1 == price * (92 # 100))%Q ∧
  ((levels RecommendationType.BUY).2 == price * (115 # 100))%Q ∧
  ((levels RecommendationType.SELL).1 == price * (108 # 100))%Q ∧
  ((levels RecommendationType.SELL).2 == price * (85 # 100))%Q ∧
  RiskManager.calculate_stop_loss entry_price RecommendationType.HOLD = entry_price ∧
  RiskManager.calculate_take_profit entry_price RecommendationType.HOLD = entry_price.
Proof.
  intros Hp levels price. subst levels price. cbn [fst snd].
  unfold RiskManager.calculate_stop_loss, RiskManager.calculate_take_profit.
  assert (Decimal.sub (Decimal.of_int 1) (RiskManager.pct RiskManager.stop_loss_pct)
          = Decimal.Mk false 92 (-2)) as -> by (vm_compute; reflexivity).
  assert (Decimal.add (Decimal.of_int 1) (RiskManager.pct RiskManager.stop_loss_pct)
          = Decimal.Mk false 108 (-2)) as -> by (vm_compute; reflexivity).
  assert (Decimal.add (Decimal.of_int 1) (RiskManager.pct RiskManager.take_profit_pct)
          = Decimal.Mk false 115 (-2)) as -> by (vm_compute; reflexivity).
  assert (Decimal.sub (Decimal.of_int 1) (RiskManager.pct RiskManager.take_profit_pct)
          = Decimal.Mk false 85 (-2)) as -> by (vm_compute; reflexivity).
  rewrite !mul_hundredths by done.
  destruct entry_price as [s c e]. cbn [Decimal.neg Decimal.coef Decimal.exp].
  split; [apply (value_hundredths s c 92 e)|].
  split; [apply (value_hundredths s c 115 e)|].
  split; [apply (value_hundredths s c 108 e)|].
  split; [apply (value_hundredths s c 85 e)|]. done.
Qed.

End Levels.

Lemma stop_loss_and_take_profit_levels_witness :
  (Decimal.value (RiskManager.calculate_stop_loss
                    (Decimal.Mk false 15010%N (-2)) RecommendationType.BUY)
   == Decimal.value (Decimal.Mk false 15010%N (-2)) * (92 # 100))%Q.
Proof.
  refine (proj1 (stop_loss_and_take_profit_levels (Decimal.Mk false 15010%N (-2)) _)).
  done.
Defined.
